(** * mongodb-casbin-adapter: the rule store adapter of [src/adapter.ts]

    A shallow embedding of the [MongoAdapter] class and of the part of the
    document store it talks to, followed by the properties of the adapter's
    operations.

    - Rule documents are JavaScript objects used as string-keyed maps; they
      are [gmap string value].
    - The store is a database of named collections, each a list of documents
      in natural order.  Only top-level equality filters are needed, which is
      all the adapter ever builds.  The [_id] the store adds to a document is
      left out: no operation of the adapter reads or writes it.  The argument
      checks of the driver (an empty [insertMany] batch is refused) are not
      modelled either; [savePolicy] never sends an empty batch.
    - Every call that leaves the adapter (driver calls, the clock, the logger,
      the enforcer's line hook) goes through one small state-and-exception
      monad [M] over a [world]. *)

From stdpp Require Import gmap strings list fin_maps pretty.

Open Scope string_scope.
Open Scope list_scope.
Open Scope nat_scope.

(** ** Values and documents *)

(** A field of a stored document is a string ([ptype], [v0]..[v5]) or a
    [Date], kept as its millisecond time value. *)
Inductive value :=
  | VStr (s : string)
  | VDate (t : Z).

#[global] Instance value_eq_dec : EqDecision value.
Proof. solve_decision. Defined.

Abbreviation document := (gmap string value).

Definition k_ptype : string := "ptype".
Definition k_createdAt : string := "createdAt".
Definition k_updatedAt : string := "updatedAt".

(** The template literal [`v${i}`]. *)
Definition vkey (i : nat) : string := "v" +:+ pretty i.

(** A positional key is one of the [`v${k}`]; the other keys of a document
    (ptype, the timestamps, anything else) are its non-positional fields. *)
Definition positional (k : string) : Prop := ∃ i, k = vkey i.

(** ** The document store *)

Module Mongo.

(** A query document matches a stored document when every field of the
    query is held, with an equal value, by the document.  The empty query
    matches everything. *)
Definition matches (q d : document) : bool :=
  bool_decide (map_Forall (λ k v, d !! k = Some v) q).

(** An update document [{ $set: ..., $unset: ... }].  The values of
    [$unset] are ignored by the store (the adapter writes ['']). *)
Record update := Update {
  u_set : document;
  u_unset : gmap string string;
}.

(** [$set] overwrites or adds its fields, [$unset] removes its fields;
    every other field of the document stays. *)
Definition apply_update (u : update) (d : document) : document :=
  filter (λ kv, u_unset u !! kv.1 = None) (u_set u ∪ d).

Definition find (q : document) (ds : list document) : list document :=
  List.filter (matches q) ds.

Definition insertOne (d : document) (ds : list document) : list document :=
  ds ++ [d].

Definition insertMany (new : list document) (ds : list document)
  : list document :=
  ds ++ new.

(** [deleteOne] removes the first document that matches. *)
Fixpoint deleteOne (q : document) (ds : list document) : list document :=
  match ds with
  | [] => []
  | d :: ds' => if matches q d then ds' else d :: deleteOne q ds'
  end.

Definition deleteMany (q : document) (ds : list document) : list document :=
  List.filter (λ d, negb (matches q d)) ds.

(** [updateOne] updates the first document that matches. *)
Fixpoint updateOne (q : document) (u : update) (ds : list document)
  : list document :=
  match ds with
  | [] => []
  | d :: ds' =>
      if matches q d then apply_update u d :: ds'
      else d :: updateOne q u ds'
  end.

End Mongo.

(** ** The world outside the adapter *)

(** JavaScript errors.  [MongoAdapterError] is the adapter's own class: a
    message and the error it wraps, kept as [cause]. *)
#[warnings="-register-all"]
Inductive error :=
  | JsError (message : string)
  | MongoAdapterError (message : string) (cause : option error).

Definition error_message (e : error) : string :=
  match e with
  | JsError m => m
  | MongoAdapterError m _ => m
  end.

Inductive outcome (A : Type) :=
  | Ok (a : A)
  | Throw (e : error).
Arguments Ok {A} a.
Arguments Throw {A} e.

Record index := Index {
  ix_name : string;
  ix_key : list (string * Z);
}.

Record collection := Collection {
  c_docs : list document;
  c_indexes : list index;
}.

(** The calls that leave the adapter, as the journal of a run records
    them.  A query given to [Find] is a store-native filter, opaque to the
    adapter: a predicate on documents, or nothing. *)
Inductive command :=
  | NewMongoClient (uri : string)
  | Connect
  | Close
  | ClientDb (database : string)
  | DbCollection (name : string)
  | ListCollections (name : string)
  | CreateCollection (name : string)
  | ListIndexes (name : string)
  | CreateIndex (name : string) (key : list (string * Z)) (ixname : option string)
  | Find (name : string) (filter : option (document → bool))
  | InsertOne (name : string) (d : document)
  | InsertMany (name : string) (ds : list document)
  | UpdateOne (name : string) (q : document) (u : Mongo.update)
  | DeleteOne (name : string) (q : document)
  | DeleteMany (name : string) (q : document)
  | Drop (name : string)
  | LogInfo (message : string)
  | LogError (message : string)
  | HelperLoadPolicyLine (line : string).

(** Calls that go over the network to the store. *)
Definition network (c : command) : bool :=
  match c with
  | NewMongoClient _ | ClientDb _ | DbCollection _
  | LogInfo _ | LogError _ | HelperLoadPolicyLine _ => false
  | _ => true
  end.

(** The world: the clock ([clock k] is what the [k]-th [new Date()] of the
    run reads), the failures of the environment ([fault n] is the message
    with which the call recorded at position [n] of the journal throws, if
    it does), the implementation-defined [toString] of a [Date]
    ([date_text]), the collections of the database by (database, collection)
    name, and the journal of the calls made so far. *)
Record world := World {
  date_text : Z → string;
  clock : nat → Z;
  fault : nat → option string;
  ticks : nat;
  store : gmap (string * string) collection;
  journal : list command;
}.

Definition M (A : Type) : Type := world → outcome A * world.

#[global] Instance M_ret : MRet M := λ A a w, (Ok a, w).

#[global] Instance M_bind : MBind M := λ A B f m w,
  match m w with
  | (Ok a, w') => f a w'
  | (Throw e, w') => (Throw e, w')
  end.

Definition throw {A} (e : error) : M A := λ w, (Throw e, w).

(** [try { m } catch (error) { h error }] *)
Definition try_catch {A} (m : M A) (h : error → M A) : M A := λ w,
  match m w with
  | (Ok a, w') => (Ok a, w')
  | (Throw e, w') => h e w'
  end.

Definition record (c : command) (w : world) : world :=
  World (date_text w) (clock w) (fault w) (ticks w) (store w) (journal w ++ [c]).

Definition with_store (s : gmap (string * string) collection) (w : world)
  : world :=
  World (date_text w) (clock w) (fault w) (ticks w) s (journal w).

(** One call into the driver (or the enforcer): it is journalled, and
    either throws as the environment decides or acts on the store. *)
Definition extern {A} (c : command)
    (f : gmap (string * string) collection
         → A * gmap (string * string) collection) : M A := λ w,
  match fault w (length (journal w)) with
  | Some msg => (Throw (JsError msg), record c w)
  | None =>
      let '(a, s) := f (store w) in (Ok a, record c (with_store s w))
  end.

(** The console logger does not fail. *)
Definition logger (c : command) : M unit := λ w, (Ok tt, record c w).

(** One more reading of the clock has been made. *)
Definition tick (w : world) : world :=
  World (date_text w) (clock w) (fault w) (S (ticks w)) (store w) (journal w).

(** [new Date()] *)
Definition new_Date : M Z := λ w, (Ok (clock w (ticks w)), tick w).

Fixpoint mapM {A B} (f : A → M B) (l : list A) : M (list B) :=
  match l with
  | [] => mret []
  | x :: l' => y ← f x; ys ← mapM f l'; mret (y :: ys)
  end.

(** Store actions on the collection named [n]. *)
Definition docs_of (s : gmap (string * string) collection)
    (n : string * string) : list document :=
  from_option c_docs [] (s !! n).

(** Writes that do not create a missing collection. *)
Definition alter_docs (f : list document → list document)
    (n : string * string) (s : gmap (string * string) collection)
  : gmap (string * string) collection :=
  match s !! n with
  | Some c => <[n := Collection (f (c_docs c)) (c_indexes c)]> s
  | None => s
  end.

(** Inserts create a missing collection. *)
Definition upsert_docs (f : list document → list document)
    (n : string * string) (s : gmap (string * string) collection)
  : gmap (string * string) collection :=
  <[n := Collection (f (docs_of s n)) (from_option c_indexes [] (s !! n))]> s.

Definition default_index_name (key : list (string * Z)) : string :=
  String.concat "_" (map (λ fd, fd.1 +:+ "_" +:+ pretty fd.2) key).

Definition add_index (key : list (string * Z)) (ixname : option string)
    (n : string * string) (s : gmap (string * string) collection)
  : gmap (string * string) collection :=
  let ix := Index (default (default_index_name key) ixname) key in
  <[n := Collection (docs_of s n)
                    (from_option c_indexes [] (s !! n) ++ [ix])]> s.

(** ** The adapter *)

Record MongoAdapter := {
  databaseName : string;
  mongoClient : string;
  collectionName : string;
  dropCollectionOnManualSave : bool;
  useFilter : bool;
}.

Definition namespace (this : MongoAdapter) : string * string :=
  (databaseName this, collectionName this).

(** [wrapError(error, context)] *)
Definition wrapError (e : error) (context : string) : error :=
  MongoAdapterError (context +:+ ": " +:+ error_message e) (Some e).

Definition constructor (uri database collection : string)
    (filtered dropCollectionOnManualSave : bool) : M MongoAdapter :=
  if bool_decide (uri = "") then
    throw (MongoAdapterError "MongoDB URI is required." None)
  else
    try_catch (extern (NewMongoClient uri) (λ s, (tt, s)))
      (λ e, throw (wrapError e "Failed to create MongoClient"));;
    mret {| databaseName := database;
            mongoClient := uri;
            collectionName := collection;
            dropCollectionOnManualSave := dropCollectionOnManualSave;
            useFilter := filtered |}.

Definition isFiltered (this : MongoAdapter) : bool := useFilter this.

Definition close (this : MongoAdapter) : M unit :=
  try_catch (extern Close (λ s, (tt, s)))
    (λ e, throw (wrapError e "Failed to close MongoDB connection")).

Definition getCollection (this : MongoAdapter) : M (string * string) :=
  try_catch
    (extern (ClientDb (databaseName this)) (λ s, (tt, s));;
     extern (DbCollection (collectionName this)) (λ s, (tt, s));;
     mret (namespace this))
    (λ e, throw (wrapError e
       ("Failed to get collection '" +:+ collectionName this +:+ "'"))).

Definition getDatabase (this : MongoAdapter) : M string :=
  try_catch
    (extern (ClientDb (databaseName this)) (λ s, (tt, s));;
     mret (databaseName this))
    (λ e, throw (wrapError e
       ("Failed to get database '" +:+ databaseName this +:+ "'"))).

Definition createCollection (this : MongoAdapter) : M unit :=
  try_catch
    (db ← getDatabase this;
     collectionExists ←
       extern (ListCollections (collectionName this))
         (λ s, (bool_decide (is_Some (s !! (db, collectionName this))), s));
     if negb collectionExists then
       extern (CreateCollection (collectionName this))
         (λ s, (tt, upsert_docs id (db, collectionName this) s));;
       logger (LogInfo ("Collection '" +:+ collectionName this +:+ "' created"))
     else mret tt)
    (λ e, throw (wrapError e
       ("Failed to create collection '" +:+ collectionName this +:+ "'"))).

Definition compound_key : list (string * Z) :=
  [("ptype", 1%Z); ("v0", 1%Z); ("v1", 1%Z); ("v2", 1%Z); ("v3", 1%Z);
   ("v4", 1%Z); ("v5", 1%Z)].

Definition compound_name : string := "ptype_v0_v1_v2_v3_v4_v5_compound_index".

(** [index.key && index.key[field] === 1] *)
Definition key_has (field : string) (ix : index) : bool :=
  bool_decide ((list_to_map (ix_key ix) : gmap string Z) !! field = Some 1%Z).

Definition createIndexes (this : MongoAdapter) : M unit :=
  try_catch
    (collection ← getCollection this;
     existingIndexes ←
       extern (ListIndexes (collectionName this))
         (λ s, (from_option c_indexes [] (s !! collection), s));
     let compoundIndexExists :=
       existsb (λ ix, bool_decide (ix_name ix = compound_name))
               existingIndexes in
     (if negb compoundIndexExists then
        extern (CreateIndex (collectionName this) compound_key
                  (Some compound_name))
          (λ s, (tt, add_index compound_key (Some compound_name)
                       collection s));;
        logger (LogInfo "Compound index created for ptype and v0-v5")
      else mret tt);;
     let createdAtIndexExists :=
       existsb (key_has "createdAt") existingIndexes in
     (if negb createdAtIndexExists then
        extern (CreateIndex (collectionName this) [("createdAt", 1%Z)] None)
          (λ s, (tt, add_index [("createdAt", 1%Z)] None collection s));;
        logger (LogInfo "Index created for createdAt")
      else mret tt);;
     let updatedAtIndexExists :=
       existsb (key_has "updatedAt") existingIndexes in
     (if negb updatedAtIndexExists then
        extern (CreateIndex (collectionName this) [("updatedAt", 1%Z)] None)
          (λ s, (tt, add_index [("updatedAt", 1%Z)] None collection s));;
        logger (LogInfo "Index created for updatedAt")
      else mret tt))
    (λ e, logger (LogError "Failed to create database indexes:")).

Definition open (this : MongoAdapter) : M unit :=
  try_catch
    (extern Connect (λ s, (tt, s));;
     createCollection this;;
     createIndexes this)
    (λ e, throw (wrapError e
       "Failed to open MongoDB connection and create collection")).

(** [newAdapter({uri, options, database, collection, filtered,
    dropCollectionOnManualSave})]: the two flags are optional and default to
    [false] in the constructor. *)
Definition newAdapter (uri database collection : string)
    (filtered dropCollectionOnManualSave : option bool) : M MongoAdapter :=
  adapter ← constructor uri database collection
               (default false filtered)
               (default false dropCollectionOnManualSave);
  open adapter;;
  mret adapter.

(** *** Documents from rules *)

Inductive timestampOption := none | updatedOnly | both.

(** The loop [for (let i = 0; i < rule.length && i < 6; i++)
    line[`v${i}`] = rule[i]]; [fuel] is the number of iterations the bound
    [i < 6] leaves. *)
Fixpoint fill_fields (rule : list string) (i fuel : nat) (line : document)
  : document :=
  match fuel with
  | 0 => line
  | S fuel' =>
      if bool_decide (i < length rule) && bool_decide (i < 6) then
        match rule !! i with
        | Some s => fill_fields rule (S i) fuel' (<[vkey i := VStr s]> line)
        | None => fill_fields rule (S i) fuel' line
        end
      else line
  end.

(** [const line = { ptype }] after the loop. *)
Definition rule_line (ptype : string) (rule : list string) : document :=
  fill_fields rule 0 6 {[ k_ptype := VStr ptype ]}.

Definition convertRuleToDocument (ptype : string) (rule : list string)
    (timestampOption : timestampOption) : M document :=
  let line := rule_line ptype rule in
  match timestampOption with
  | none => mret line
  | _ =>
      now ← new_Date;
      match timestampOption with
      | updatedOnly => mret (<[k_updatedAt := VDate now]> line)
      | _ => mret (<[k_updatedAt := VDate now]>
                     (<[k_createdAt := VDate now]> line))
      end
  end.

Definition savePolicyLine (ptype : string) (rule : list string) : M document :=
  convertRuleToDocument ptype rule both.

Definition deletePolicyLine (ptype : string) (rule : list string)
  : M document :=
  convertRuleToDocument ptype rule none.

Definition updatePolicyLine (ptype : string) (rule : list string)
  : M document :=
  convertRuleToDocument ptype rule updatedOnly.

(** *** Loading *)

(** JavaScript conversions of a field read from a document ([None] is
    [undefined]): truthiness, and the text a string concatenation or
    [join] gives it. *)
Definition truthy (x : option value) : bool :=
  match x with
  | Some (VStr s) => negb (bool_decide (s = ""))
  | Some (VDate _) => true
  | None => false
  end.

Definition js_text (date_text : Z → string) (x : option value) : string :=
  match x with
  | Some (VStr s) => s
  | Some (VDate t) => date_text t
  | None => "undefined"
  end.

(** The [result] string of [loadPolicyLine]. *)
Definition policy_line (date_text : Z → string) (line : document) : string :=
  js_text date_text (line !! k_ptype) +:+ ", " +:+
  String.concat ", "
    (map (js_text date_text)
       (List.filter truthy
          [line !! vkey 0; line !! vkey 1; line !! vkey 2;
           line !! vkey 3; line !! vkey 4; line !! vkey 5])).

Definition loadPolicyLine (line : document) : M unit := λ w,
  extern (HelperLoadPolicyLine (policy_line (date_text w) line))
    (λ s, (tt, s)) w.

Definition getFilteredPolicyLines (this : MongoAdapter)
    (filter : option (document → bool)) : M (list document) :=
  collection ← getCollection this;
  let q := if useFilter this then filter else None in
  extern (Find (collectionName this) q)
    (λ s, (List.filter (default (λ _, true) q) (docs_of s collection), s)).

Definition loadFilteredPolicy (this : MongoAdapter)
    (filter : option (document → bool)) : M unit :=
  try_catch
    (lines ← getFilteredPolicyLines this filter;
     mapM loadPolicyLine lines;;
     mret tt)
    (λ e, throw (wrapError e "Failed to load filtered policy")).

Definition loadPolicy (this : MongoAdapter) : M unit :=
  loadFilteredPolicy this None.

(** *** Saving *)

(** What the adapter reads of the enforcer's model: per section key, the
    rule types in insertion order, each with its rules. *)
Record Assertion := { policy : list (list string) }.

Record Model := { model : gmap string (list (string * Assertion)) }.

Definition extractPolicyRules (m : Model) (key : string)
  : M (list document) :=
  match model m !! key with
  | None => mret []
  | Some astMap =>
      per_type ← mapM (λ entry,
                    mapM (savePolicyLine entry.1) (policy entry.2)) astMap;
      mret (concat per_type)
  end.

Definition getAllPolicyRules (m : Model) : M (list document) :=
  p ← extractPolicyRules m "p";
  g ← extractPolicyRules m "g";
  mret (p ++ g).

Definition clearCollection (this : MongoAdapter) : M unit :=
  try_catch
    (db ← getDatabase this;
     list ← extern (ListCollections (collectionName this))
              (λ s, (bool_decide (is_Some (s !! (db, collectionName this))),
                     s));
     if (list : bool) then
       if dropCollectionOnManualSave this then
         collection ← getCollection this;
         extern (Drop (collectionName this)) (λ s, (tt, delete collection s))
       else
         collection ← getCollection this;
         extern (DeleteMany (collectionName this) ∅)
           (λ s, (tt, alter_docs (Mongo.deleteMany ∅) collection s))
     else mret tt)
    (λ e, throw (wrapError e
       ("Failed to clear collection '" +:+ collectionName this +:+ "'"))).

Definition savePolicy (this : MongoAdapter) (m : Model) : M bool :=
  clearCollection this;;
  allRules ← getAllPolicyRules m;
  (if bool_decide (0 < length allRules) then
     collection ← getCollection this;
     extern (InsertMany (collectionName this) allRules)
       (λ s, (tt, upsert_docs (Mongo.insertMany allRules) collection s))
   else mret tt);;
  mret true.

(** *** Single-rule and batch operations *)

Definition addPolicy (this : MongoAdapter) (_sec ptype : string)
    (rule : list string) : M unit :=
  line ← savePolicyLine ptype rule;
  collection ← getCollection this;
  extern (InsertOne (collectionName this) line)
    (λ s, (tt, upsert_docs (Mongo.insertOne line) collection s)).

(** The [$unset] record of [updatePolicy]: the keys of [oldLine] that
    [newLine] does not own, the two timestamps excepted, each bound to
    ['']. *)
Definition unset_of (oldLine newLine : document) : gmap string string :=
  (λ _, "") <$>
  filter (λ kv, newLine !! kv.1 = None
                ∧ kv.1 ≠ k_createdAt ∧ kv.1 ≠ k_updatedAt) oldLine.

(** [const updateOperation = { $set: newLine, $unset: ... }] *)
Definition updateOperation (oldLine newLine : document) : Mongo.update :=
  Mongo.Update newLine (unset_of oldLine newLine).

Definition updatePolicy (this : MongoAdapter) (_sec ptype : string)
    (oldRule newRule : list string) : M unit :=
  oldLine ← deletePolicyLine ptype oldRule;
  newLine ← updatePolicyLine ptype newRule;
  collection ← getCollection this;
  extern (UpdateOne (collectionName this) oldLine
            (updateOperation oldLine newLine))
    (λ s, (tt, alter_docs
                 (Mongo.updateOne oldLine (updateOperation oldLine newLine))
                 collection s)).

Definition removePolicy (this : MongoAdapter) (_sec ptype : string)
    (rule : list string) : M unit :=
  line ← deletePolicyLine ptype rule;
  collection ← getCollection this;
  extern (DeleteOne (collectionName this) line)
    (λ s, (tt, alter_docs (Mongo.deleteOne line) collection s)).

Definition addPolicies (this : MongoAdapter) (_sec ptype : string)
    (rules : list (list string)) : M unit :=
  lines ← mapM (savePolicyLine ptype) rules;
  collection ← getCollection this;
  extern (InsertMany (collectionName this) lines)
    (λ s, (tt, upsert_docs (Mongo.insertMany lines) collection s)).

(** The body and the loop of [removeFilteredPolicy] over [i = 0..5]. *)
Definition filter_step (fieldIndex : Z) (fieldValues : list string)
    (line : document) (i : nat) : document :=
  if bool_decide (fieldIndex ≤ Z.of_nat i)%Z
     && bool_decide (Z.of_nat i < fieldIndex + Z.of_nat (length fieldValues))%Z
  then
    match fieldValues !! Z.to_nat (Z.of_nat i - fieldIndex) with
    | Some s => <[vkey i := VStr s]> line
    | None => line
    end
  else line.

Definition filter_fields (fieldIndex : Z) (fieldValues : list string)
    (line : document) : document :=
  foldl (filter_step fieldIndex fieldValues) line (seq 0 6).

Definition removeFilteredPolicy (this : MongoAdapter) (_sec ptype : string)
    (fieldIndex : Z) (fieldValues : list string) : M unit :=
  let line := filter_fields fieldIndex fieldValues {[ k_ptype := VStr ptype ]} in
  collection ← getCollection this;
  extern (DeleteMany (collectionName this) line)
    (λ s, (tt, alter_docs (Mongo.deleteMany line) collection s)).

(** *** removePolicies: deletions in flight

    [removePolicies] calls [deleteOne] once per line without awaiting, then
    awaits [Promise.all] of the promises it collected.  A promise is
    pending, fulfilled or rejected; the deletions settle one at a time, in
    whatever order the driver and the store get to them. *)

Inductive promise (A : Type) :=
  | Pending
  | Fulfilled (a : A)
  | Rejected (e : error).
Arguments Pending {A}.
Arguments Fulfilled {A} a.
Arguments Rejected {A} e.

Definition is_pending {A} (p : promise A) : bool :=
  match p with Pending => true | _ => false end.
Definition is_fulfilled {A} (p : promise A) : bool :=
  match p with Fulfilled _ => true | _ => false end.
Definition is_rejected {A} (p : promise A) : bool :=
  match p with Rejected _ => true | _ => false end.

(** The [promises] array (each promise with the filter its [deleteOne] was
    given) and the promise the caller of [removePolicies] holds. *)
Record flight := Flight {
  promises : list (document * promise unit);
  result : promise unit;
}.

(** [Promise.all(promises)] at the moment it is called. *)
Definition Promise_all (ps : list (document * promise unit)) : promise unit :=
  match List.find (λ p, is_rejected p.2) ps with
  | Some (_, Rejected e) => Rejected e
  | _ => if forallb (λ p, is_fulfilled p.2) ps then Fulfilled tt else Pending
  end.

(** The loop [for (const line of lines)
    promises.push(this.getCollection().deleteOne(line))] followed by the
    call of [Promise.all].  A synchronous throw of [getCollection] rejects
    the promise of [removePolicies]; the deletions already issued stay in
    flight. *)
Fixpoint issue (this : MongoAdapter) (lines : list document)
    (promises : list (document * promise unit)) (w : world)
  : flight * world :=
  match lines with
  | [] => (Flight promises (Promise_all promises), w)
  | line :: rest =>
      match getCollection this w with
      | (Ok _, w') => issue this rest (promises ++ [(line, Pending)]) w'
      | (Throw e, w') => (Flight promises (Rejected e), w')
      end
  end.

Definition removePolicies (this : MongoAdapter) (_sec ptype : string)
    (rules : list (list string)) (w : world) : flight * world :=
  match mapM (deletePolicyLine ptype) rules w with
  | (Ok lines, w') => issue this lines [] w'
  | (Throw e, w') => (Flight [] (Rejected e), w')
  end.

(** The deletion at index [i] of the array settles: its round trip is
    made, and [Promise.all] follows: it rejects with the first rejection,
    and fulfils once every promise is fulfilled. *)
Definition settle (this : MongoAdapter) (i : nat) (f : flight) (w : world)
  : flight * world :=
  match promises f !! i with
  | Some (line, Pending) =>
      match extern (DeleteOne (collectionName this) line)
              (λ s, (tt, alter_docs (Mongo.deleteOne line) (namespace this) s))
              w with
      | (Ok _, w') =>
          let ps := <[i := (line, Fulfilled tt)]> (promises f) in
          (Flight ps
             (match result f with
              | Pending =>
                  if forallb (λ p, is_fulfilled p.2) ps
                  then Fulfilled tt else Pending
              | r => r
              end), w')
      | (Throw e, w') =>
          (Flight (<[i := (line, Rejected e)]> (promises f))
             (match result f with
              | Pending => Rejected e
              | r => r
              end), w')
      end
  | _ => (f, w)
  end.

(** A schedule is the order in which the deletions settle. *)
Definition run (this : MongoAdapter) (schedule : list nat)
    (fw : flight * world) : flight * world :=
  foldl (λ fw i, settle this i fw.1 fw.2) fw schedule.

(** ** Vocabulary of the properties *)

(** A run in which the environment makes no call fail. *)
Definition healthy (w : world) : Prop := ∀ n, fault w n = None.

(** The documents of the adapter's collection. *)
Definition documents (this : MongoAdapter) (w : world) : list document :=
  docs_of (store w) (namespace this).

(** The document an insertion at clock reading [now] stores for a rule. *)
Definition inserted (now : Z) (ptype : string) (rule : list string)
  : document :=
  <[k_updatedAt := VDate now]>
    (<[k_createdAt := VDate now]> (rule_line ptype rule)).

(** [updatedAt] of [d'] is strictly later than [updatedAt] of [d]. *)
Definition updatedAt_advances (d d' : document) : Prop :=
  ∃ t t', d !! k_updatedAt = Some (VDate t)
          ∧ d' !! k_updatedAt = Some (VDate t')
          ∧ (t < t')%Z.

(** The slice [v_offset .. v_(offset+k)] of a document equals the values
    [x0 .. xk], and its ptype is the given one. *)
Definition slice_equals (ptype : string) (offset : nat) (values : list string)
    (d : document) : Prop :=
  d !! k_ptype = Some (VStr ptype)
  ∧ ∀ j x, values !! j = Some x → d !! vkey (offset + j) = Some (VStr x).

(** The world after [n] more readings of the clock. *)
Definition advance (n : nat) (w : world) : world := Nat.iter n tick w.

(** The rules a model holds under a section key, each with its rule type,
    in the order the model iterates them. *)
Definition rules_of (m : Model) (key : string) : list (string * list string) :=
  match model m !! key with
  | None => []
  | Some astMap =>
      flat_map (λ entry, map (pair entry.1) (policy entry.2)) astMap
  end.

(** The documents inserted for a list of rules when the [i]-th of them is
    stamped with the clock reading number [t0 + i]. *)
Definition stamp_all (clk : nat → Z) (t0 : nat)
    (rules : list (string * list string)) : list document :=
  imap (λ i pr, inserted (clk (t0 + i)) pr.1 pr.2) rules.

(** The positional fields [v0..v5] a document holds as strings, in order. *)
Definition str_field (d : document) (k : nat) : option string :=
  match d !! vkey k with
  | Some (VStr s) => Some s
  | _ => None
  end.

Definition present_fields (d : document) : list string :=
  omap (str_field d) (seq 0 6).

Definition nonempty (s : string) : bool := negb (bool_decide (s = "")).

(** The promise of [removePolicies] agrees with the deletions: it is
    fulfilled only if every deletion is, and it is rejected if a deletion
    is. *)
Definition consistent (f : flight) : Prop :=
  (is_fulfilled (result f) = true →
   Forall (λ p, is_fulfilled p.2 = true) (promises f))
  ∧ (Exists (λ p, is_rejected p.2 = true) (promises f) →
     is_rejected (result f) = true).

(** No deletion failed so far, and the promise of [removePolicies] waits
    for the deletions still pending. *)
Definition on_track (f : flight) : Prop :=
  Forall (λ p, is_rejected p.2 = false) (promises f)
  ∧ result f = if forallb (λ p, is_fulfilled p.2) (promises f)
               then Fulfilled tt else Pending.

(** A world to run examples in: an empty database, a clock that advances
    by one millisecond per reading from 1000, no failure. *)
Definition world0 : world :=
  World (λ _, "Thu Jan 01 1970") (λ k, (1000 + Z.of_nat k)%Z) (λ _, None)
        0 ∅ [].

Definition adapter0 : MongoAdapter :=
  {| databaseName := "casbin";
     mongoClient := "mongodb://localhost:27017";
     collectionName := "policies";
     dropCollectionOnManualSave := false;
     useFilter := false |}.

(** The same world with a clock that reads the same millisecond twice. *)
Definition world_same_ms : world :=
  World (λ _, "Thu Jan 01 1970") (λ _, 1000%Z) (λ _, None) 0 ∅ [].

(** A model with two policy types and one grouping type. *)
Definition model0 : Model :=
  {| model :=
       {[ "p" := [("p", {| policy := [["alice"; "data1"; "read"];
                                      ["bob"; "data2"; "write"]] |});
                  ("p2", {| policy := [["carol"; "data3"]] |})];
          "g" := [("g", {| policy := [["alice"; "admin"]] |})] ]} |}.

(** A world holding two rules in which the call journalled at position 4
    (the first deletion to settle after two [deleteOne] calls were issued)
    fails. *)
Definition world_fault_at_4 : world :=
  World (λ _, "Thu Jan 01 1970") (λ k, (1000 + Z.of_nat k)%Z)
        (λ n, if bool_decide (n = 4) then Some "connection reset" else None)
        0
        {[ namespace adapter0 :=
             Collection [inserted 900 "p" ["liam"; "data13"; "read"];
                         inserted 901 "p" ["mia"; "data14"; "write"]] [] ]}
        [].

(** The stored document of a rule with its two timestamps. *)
Definition stored (created updated : Z) (ptype : string) (rule : list string)
  : document :=
  <[k_updatedAt := VDate updated]>
    (<[k_createdAt := VDate created]> (rule_line ptype rule)).

(** The indexes of a collection of the store. *)
Definition indexes_of (s : gmap (string * string) collection)
    (n : string * string) : list index :=
  from_option c_indexes [] (s !! n).

(** The next [n] calls of the run do not fail. *)
Definition calm (n : nat) (w : world) : Prop :=
  ∀ k, k < n → fault w (length (journal w) + k) = None.

(** The call made after [n] more calls fails with message [msg]. *)
Definition fails_after (n : nat) (msg : string) (w : world) : Prop :=
  fault w (length (journal w) + n) = Some msg.

(** What [createIndexes] finds missing among the indexes that exist: the
    key and the name given to each [createIndex] call, in order. *)
Definition missing_indexes (existing : list index)
  : list (list (string * Z) * option string) :=
  (if existsb (λ ix, bool_decide (ix_name ix = compound_name)) existing
   then [] else [(compound_key, Some compound_name)])
  ++ (if existsb (key_has "createdAt") existing
      then [] else [([("createdAt", 1%Z)], None)])
  ++ (if existsb (key_has "updatedAt") existing
      then [] else [([("updatedAt", 1%Z)], None)]).

(** The index the store makes of a [createIndex] call. *)
Definition made_index (km : list (string * Z) * option string) : index :=
  Index (default (default_index_name km.1) km.2) km.1.

(** A world in which the first call fails. *)
Definition world_fault_at_0 : world :=
  World (λ _, "Thu Jan 01 1970") (λ k, (1000 + Z.of_nat k)%Z)
        (λ n, if bool_decide (n = 0) then Some "Database error" else None)
        0 ∅ [].


(** A world holding one rule in which the eighth call fails: in
    [savePolicy] on an existing collection, the [insertMany]. *)
Definition world_fault_at_7 : world :=
  World (λ _, "Thu Jan 01 1970") (λ k, (1000 + Z.of_nat k)%Z)
        (λ n, if bool_decide (n = 7) then Some "insert failed" else None)
        0
        {[ namespace adapter0 :=
             Collection [inserted 900 "p" ["old"; "data0"; "read"]] [] ]}
        [].

(** Deleting, one at a time and in the order of [schedule], the first
    match of the key of each rule the schedule names. *)
Definition delete_in_order (ptype : string) (rules : list (list string))
    (schedule : list nat) (ds : list document) : list document :=
  foldl (λ ds i,
           match rules !! i with
           | Some rule => Mongo.deleteOne (rule_line ptype rule) ds
           | None => ds
           end) ds schedule.

(** ** Facts about keys *)

Lemma vkey_inj i j : vkey i = vkey j → i = j.
Proof.
  unfold vkey. intros H. simpl in H. injection H as H.
  exact (pretty_nat_inj _ _ H).
Qed.

Lemma vkey_not_ptype i : vkey i ≠ k_ptype.
Proof. discriminate. Qed.

Lemma vkey_not_createdAt i : vkey i ≠ k_createdAt.
Proof. discriminate. Qed.

Lemma vkey_not_updatedAt i : vkey i ≠ k_updatedAt.
Proof. discriminate. Qed.

Lemma ptype_not_positional : ¬ positional k_ptype.
Proof. intros [i H]. by apply (vkey_not_ptype i). Qed.

Lemma createdAt_not_positional : ¬ positional k_createdAt.
Proof. intros [i H]. by apply (vkey_not_createdAt i). Qed.

Lemma updatedAt_not_positional : ¬ positional k_updatedAt.
Proof. intros [i H]. by apply (vkey_not_updatedAt i). Qed.

Lemma matches_spec q d :
  Mongo.matches q d = true ↔ ∀ k v, q !! k = Some v → d !! k = Some v.
Proof.
  unfold Mongo.matches. rewrite bool_decide_eq_true. reflexivity.
Qed.

Lemma apply_update_lookup u d k :
  Mongo.apply_update u d !! k =
    match Mongo.u_unset u !! k with
    | Some _ => None
    | None =>
        match Mongo.u_set u !! k with
        | Some v => Some v
        | None => d !! k
        end
    end.
Proof.
  unfold Mongo.apply_update.
  destruct (Mongo.u_unset u !! k) as [s|] eqn:Hu.
  - apply map_lookup_filter_None. right. intros v _. simpl. by rewrite Hu.
  - destruct (Mongo.u_set u !! k) as [v|] eqn:Hs.
    + apply map_lookup_filter_Some. split; [|done].
      apply lookup_union_Some_raw. by left.
    + destruct (d !! k) as [v|] eqn:Hd.
      * apply map_lookup_filter_Some. split; [|done].
        apply lookup_union_Some_raw. by right.
      * apply map_lookup_filter_None. left.
        apply lookup_union_None. done.
Qed.

(** ** Running the monad *)

Lemma bind_ok {A B} (m : M A) (f : A → M B) a w w' :
  m w = (Ok a, w') → (m ≫= f) w = f a w'.
Proof. intros H. unfold mbind, M_bind. by rewrite H. Qed.

Lemma bind_throw {A B} (m : M A) (f : A → M B) e w w' :
  m w = (Throw e, w') → (m ≫= f) w = (Throw e, w').
Proof. intros H. unfold mbind, M_bind. by rewrite H. Qed.

Lemma try_ok {A} (m : M A) h a w w' :
  m w = (Ok a, w') → try_catch m h w = (Ok a, w').
Proof. intros H. unfold try_catch. by rewrite H. Qed.

Lemma try_throw {A} (m : M A) h e w w' :
  m w = (Throw e, w') → try_catch m h w = h e w'.
Proof. intros H. unfold try_catch. by rewrite H. Qed.

Lemma with_store_same w : with_store (store w) w = w.
Proof. by destruct w. Qed.

Lemma healthy_record c w : healthy w → healthy (record c w).
Proof. intros H n. apply H. Qed.

Lemma healthy_with_store s w : healthy w → healthy (with_store s w).
Proof. intros H n. apply H. Qed.

Lemma healthy_tick w : healthy w → healthy (tick w).
Proof. intros H n. apply H. Qed.

Create HintDb healthy.
#[global] Hint Resolve healthy_record healthy_with_store healthy_tick : healthy.

Lemma extern_healthy {A} (c : command)
    (f : gmap (string * string) collection
         → A * gmap (string * string) collection) (w : world) :
  healthy w →
  extern c f w = (Ok (f (store w)).1, record c (with_store (f (store w)).2 w)).
Proof.
  intros H. unfold extern. rewrite H. by destruct (f (store w)).
Qed.

Lemma extern_read_healthy {A} (c : command)
    (g : gmap (string * string) collection → A) (w : world) :
  healthy w → extern c (λ s, (g s, s)) w = (Ok (g (store w)), record c w).
Proof.
  intros H. rewrite extern_healthy by done. simpl. by rewrite with_store_same.
Qed.

Lemma extern_pure_healthy {A} (c : command) (a : A) (w : world) :
  healthy w → extern c (λ s, (a, s)) w = (Ok a, record c w).
Proof. apply (extern_read_healthy c (λ _, a)). Qed.

Lemma getCollection_healthy this w :
  healthy w →
  getCollection this w =
    (Ok (namespace this),
     record (DbCollection (collectionName this))
       (record (ClientDb (databaseName this)) w)).
Proof.
  intros H. unfold getCollection. apply try_ok.
  erewrite bind_ok by (apply extern_pure_healthy; done).
  erewrite bind_ok by (apply extern_pure_healthy; auto with healthy).
  reflexivity.
Qed.

Lemma getDatabase_healthy this w :
  healthy w →
  getDatabase this w =
    (Ok (databaseName this), record (ClientDb (databaseName this)) w).
Proof.
  intros H. unfold getDatabase. apply try_ok.
  erewrite bind_ok by (apply extern_pure_healthy; done).
  reflexivity.
Qed.

(** ** Document construction *)

Lemma fill_fields_lookup rule fuel : ∀ i line k,
  fill_fields rule i fuel line !! vkey k =
    if decide (i ≤ k ∧ k < i + fuel ∧ k < 6 ∧ k < length rule)
    then VStr <$> rule !! k else line !! vkey k.
Proof.
  induction fuel as [|fuel IH]; intros i line k; simpl.
  - case_decide; [lia | done].
  - destruct (bool_decide (i < length rule)) eqn:Hlen; simpl.
    2: { apply bool_decide_eq_false in Hlen. case_decide; [lia | done]. }
    apply bool_decide_eq_true in Hlen.
    destruct (bool_decide (i < 6)) eqn:H6; simpl.
    2: { apply bool_decide_eq_false in H6. case_decide; [lia | done]. }
    apply bool_decide_eq_true in H6.
    destruct (lookup_lt_is_Some_2 rule i Hlen) as [s Hs]. rewrite Hs, IH.
    destruct (decide (k = i)) as [->|Hne].
    + repeat case_decide; try lia.
      by rewrite lookup_insert_eq, Hs.
    + rewrite lookup_insert_ne by (intros E; apply vkey_inj in E; lia).
      repeat case_decide; try lia; done.
Qed.

Lemma fill_fields_frame rule fuel : ∀ i line key,
  ¬ positional key → fill_fields rule i fuel line !! key = line !! key.
Proof.
  induction fuel as [|fuel IH]; intros i line key Hk; simpl; [done|].
  destruct (bool_decide (i < length rule) && bool_decide (i < 6)); [|done].
  destruct (rule !! i) as [s|]; rewrite IH by done; [|done].
  apply lookup_insert_ne. intros <-. apply Hk. by exists i.
Qed.

Lemma fill_fields_dom rule fuel : ∀ i line key,
  is_Some (fill_fields rule i fuel line !! key) →
  is_Some (line !! key) ∨ positional key.
Proof.
  induction fuel as [|fuel IH]; intros i line key; simpl; [by left|].
  destruct (bool_decide (i < length rule) && bool_decide (i < 6)); [|by left].
  destruct (rule !! i) as [s|]; intros H; apply IH in H; [|done].
  destruct H as [H|H]; [|by right].
  destruct (decide (vkey i = key)) as [<-|Hne]; [right; by exists i|].
  left. by rewrite lookup_insert_ne in H.
Qed.

Lemma rule_line_ptype ptype rule :
  rule_line ptype rule !! k_ptype = Some (VStr ptype).
Proof.
  unfold rule_line. rewrite fill_fields_frame by apply ptype_not_positional.
  apply lookup_singleton_eq.
Qed.

Lemma rule_line_field ptype rule k :
  rule_line ptype rule !! vkey k =
    if decide (k < 6) then VStr <$> rule !! k else None.
Proof.
  unfold rule_line. rewrite fill_fields_lookup.
  rewrite lookup_singleton_ne by (apply not_eq_sym, vkey_not_ptype).
  repeat case_decide; try lia; try done.
  symmetry. rewrite fmap_None. apply lookup_ge_None. lia.
Qed.

Lemma rule_line_createdAt ptype rule : rule_line ptype rule !! k_createdAt = None.
Proof.
  unfold rule_line. rewrite fill_fields_frame by apply createdAt_not_positional.
  done.
Qed.

Lemma rule_line_updatedAt ptype rule : rule_line ptype rule !! k_updatedAt = None.
Proof.
  unfold rule_line. rewrite fill_fields_frame by apply updatedAt_not_positional.
  done.
Qed.

Lemma rule_line_keys ptype rule key :
  is_Some (rule_line ptype rule !! key) → key = k_ptype ∨ positional key.
Proof.
  unfold rule_line. intros H. apply fill_fields_dom in H as [H|H]; [|by right].
  left. destruct (decide (k_ptype = key)) as [|Hne]; [done|].
  rewrite lookup_singleton_ne in H by done. by destruct H.
Qed.

(** How [convertRuleToDocument] runs, option by option. *)
Lemma convert_none ptype rule w :
  convertRuleToDocument ptype rule none w = (Ok (rule_line ptype rule), w).
Proof. reflexivity. Qed.

Lemma convert_updatedOnly ptype rule w :
  convertRuleToDocument ptype rule updatedOnly w =
    (Ok (<[k_updatedAt := VDate (clock w (ticks w))]> (rule_line ptype rule)),
     tick w).
Proof. reflexivity. Qed.

Lemma convert_both ptype rule w :
  convertRuleToDocument ptype rule both w =
    (Ok (<[k_updatedAt := VDate (clock w (ticks w))]>
           (<[k_createdAt := VDate (clock w (ticks w))]>
              (rule_line ptype rule))),
     tick w).
Proof. reflexivity. Qed.

(** C4.  For every ptype, field list and timestamp option the helper
    returns (it never throws) a document that holds [ptype], holds [v_k]
    bound to the k-th field exactly for the provided fields of index 0..5
    (fields beyond index 5 are ignored), holds no timestamp under ['none'],
    only [updatedAt] under ['updatedOnly'], and both [createdAt] and
    [updatedAt], equal to the one clock reading taken, under ['both']; the
    document has no other field, and the clock is read once unless the
    option is ['none']. *)
Theorem convertRuleToDocument_spec ptype rule opt w :
  ∃ d, convertRuleToDocument ptype rule opt w
         = (Ok d, match opt with none => w | _ => tick w end)
    ∧ d !! k_ptype = Some (VStr ptype)
    ∧ (∀ k, d !! vkey k = if decide (k < 6) then VStr <$> rule !! k else None)
    ∧ d !! k_createdAt =
        match opt with
        | both => Some (VDate (clock w (ticks w)))
        | _ => None
        end
    ∧ d !! k_updatedAt =
        match opt with
        | none => None
        | _ => Some (VDate (clock w (ticks w)))
        end
    ∧ (∀ key, is_Some (d !! key) →
         key = k_ptype ∨ positional key
         ∨ key = k_createdAt ∨ key = k_updatedAt).
Proof.
  destruct opt.
  - eexists. split; [apply convert_none|].
    split; [apply rule_line_ptype|]. split; [apply rule_line_field|].
    split; [apply rule_line_createdAt|]. split; [apply rule_line_updatedAt|].
    intros key H. apply rule_line_keys in H. tauto.
  - eexists. split; [apply convert_updatedOnly|].
    split; [by rewrite lookup_insert_ne, rule_line_ptype|].
    split.
    { intros k. rewrite lookup_insert_ne by (apply not_eq_sym, vkey_not_updatedAt).
      apply rule_line_field. }
    split; [by rewrite lookup_insert_ne, rule_line_createdAt|].
    split; [by rewrite lookup_insert_eq|].
    intros key H. destruct (decide (k_updatedAt = key)) as [<-|Hne]; [tauto|].
    rewrite lookup_insert_ne in H by done. apply rule_line_keys in H. tauto.
  - eexists. split; [apply convert_both|].
    split; [by rewrite !lookup_insert_ne, rule_line_ptype|].
    split.
    { intros k.
      rewrite lookup_insert_ne by (apply not_eq_sym, vkey_not_updatedAt).
      rewrite lookup_insert_ne by (apply not_eq_sym, vkey_not_createdAt).
      apply rule_line_field. }
    split; [by rewrite lookup_insert_ne, lookup_insert_eq|].
    split; [by rewrite lookup_insert_eq|].
    intros key H. destruct (decide (k_updatedAt = key)) as [<-|Hne]; [tauto|].
    rewrite lookup_insert_ne in H by done.
    destruct (decide (k_createdAt = key)) as [<-|Hne']; [tauto|].
    rewrite lookup_insert_ne in H by done. apply rule_line_keys in H. tauto.
Qed.

(** ** The store *)

Lemma docs_of_alter_docs f n s :
  f [] = [] → docs_of (alter_docs f n s) n = f (docs_of s n).
Proof.
  intros Hf. unfold alter_docs, docs_of.
  destruct (s !! n) as [c|] eqn:Hc; simpl.
  - by rewrite lookup_insert_eq.
  - by rewrite Hc.
Qed.

Lemma docs_of_upsert_docs f n s :
  docs_of (upsert_docs f n s) n = f (docs_of s n).
Proof. unfold upsert_docs, docs_of at 1. by rewrite lookup_insert_eq. Qed.

Lemma updateOne_first q u pre d post :
  Forall (λ x, Mongo.matches q x = false) pre →
  Mongo.matches q d = true →
  Mongo.updateOne q u (pre ++ d :: post) = pre ++ Mongo.apply_update u d :: post.
Proof.
  intros Hpre Hd. induction Hpre as [|x pre Hx _ IH]; simpl.
  - by rewrite Hd.
  - by rewrite Hx, IH.
Qed.

Lemma updateOne_no_match q u ds :
  Forall (λ x, Mongo.matches q x = false) ds → Mongo.updateOne q u ds = ds.
Proof.
  induction 1 as [|x ds Hx _ IH]; simpl; [done|]. by rewrite Hx, IH.
Qed.

(** ** updatePolicy *)

Lemma unset_of_lookup oldLine newLine key :
  unset_of oldLine newLine !! key =
    if decide (is_Some (oldLine !! key) ∧ newLine !! key = None
               ∧ key ≠ k_createdAt ∧ key ≠ k_updatedAt)
    then Some "" else None.
Proof.
  unfold unset_of. rewrite lookup_fmap.
  destruct (oldLine !! key) as [v|] eqn:Hold.
  - case_decide as Hc.
    + erewrite (proj2 (map_lookup_filter_Some _ _ _ _)); [done|].
      split; [done|]. simpl. tauto.
    + rewrite (proj2 (map_lookup_filter_None _ _ _)); [done|].
      right. intros v' _ Hp. simpl in Hp. apply Hc. split; [by eexists|done].
  - case_decide as Hc; [by destruct Hc as [[? ?] _]|].
    rewrite (proj2 (map_lookup_filter_None _ _ _)); [done|]. by left.
Qed.

Lemma updatePolicy_healthy this sec ptype oldRule newRule w :
  healthy w →
  let oldLine := rule_line ptype oldRule in
  let newLine :=
    <[k_updatedAt := VDate (clock w (ticks w))]> (rule_line ptype newRule) in
  let op := updateOperation oldLine newLine in
  updatePolicy this sec ptype oldRule newRule w =
    (Ok tt,
     record (UpdateOne (collectionName this) oldLine op)
       (with_store
          (alter_docs (Mongo.updateOne oldLine op) (namespace this) (store w))
          (record (DbCollection (collectionName this))
             (record (ClientDb (databaseName this)) (tick w))))).
Proof.
  intros H oldLine newLine op. unfold updatePolicy.
  erewrite bind_ok by apply convert_none.
  erewrite bind_ok by apply convert_updatedOnly.
  erewrite bind_ok by (apply getCollection_healthy; auto with healthy).
  rewrite extern_healthy by auto with healthy. reflexivity.
Qed.

Lemma inserted_field now ptype rule k :
  inserted now ptype rule !! vkey k = rule_line ptype rule !! vkey k.
Proof.
  unfold inserted.
  rewrite lookup_insert_ne by (apply not_eq_sym, vkey_not_updatedAt).
  by rewrite lookup_insert_ne by (apply not_eq_sym, vkey_not_createdAt).
Qed.

Lemma inserted_matches now ptype rule :
  Mongo.matches (rule_line ptype rule) (inserted now ptype rule) = true.
Proof.
  apply matches_spec. intros k v Hk. unfold inserted.
  assert (is_Some (rule_line ptype rule !! k)) as Hs by (by eexists).
  apply rule_line_keys in Hs as [->|[i ->]].
  - by rewrite !lookup_insert_ne.
  - by rewrite <- Hk, <- (inserted_field now).
Qed.

Lemma update_unset_index ptype oldRule newRule now key :
  is_Some (unset_of (rule_line ptype oldRule)
             (<[k_updatedAt := VDate now]> (rule_line ptype newRule)) !! key)
  ↔ ∃ k, key = vkey k ∧ k < length oldRule ∧ k < 6 ∧ length newRule ≤ k.
Proof.
  rewrite unset_of_lookup. split.
  - case_decide as Hc; [|by intros [? ?]]. intros _.
    destruct Hc as (Hold & Hnew & _ & Hu).
    rewrite lookup_insert_ne in Hnew by done.
    apply rule_line_keys in Hold as Hk. destruct Hk as [->|[k ->]].
    { by rewrite rule_line_ptype in Hnew. }
    exists k. split; [done|].
    rewrite rule_line_field in Hold, Hnew.
    case_decide; [|by destruct Hold].
    rewrite fmap_is_Some in Hold. apply lookup_lt_is_Some in Hold.
    rewrite fmap_None in Hnew. apply lookup_ge_None in Hnew. lia.
  - intros (k & -> & Hlt & H6 & Hge).
    rewrite decide_True; [by eexists|].
    split_and!.
    + rewrite rule_line_field, decide_True by done.
      rewrite fmap_is_Some. by apply lookup_lt_is_Some.
    + rewrite lookup_insert_ne by (apply not_eq_sym, vkey_not_updatedAt).
      rewrite rule_line_field, decide_True by done.
      rewrite fmap_None. by apply lookup_ge_None.
    + apply vkey_not_createdAt.
    + apply vkey_not_updatedAt.
Qed.


Lemma healthy_world0 : healthy world0.
Proof. intros n. reflexivity. Defined.


(** C2, as stated, fails: the update stamps [updatedAt] with the clock
    reading taken at the update, and a rule added and updated within the
    same millisecond keeps the [updatedAt] it had. *)
Lemma updatePolicy_same_millisecond :
  ∃ w1 w2 d d',
    addPolicy adapter0 "p" "p" ["noah"; "data15"; "read"] world_same_ms
      = (Ok tt, w1)
    ∧ documents adapter0 w1 = [d]
    ∧ updatePolicy adapter0 "p" "p" ["noah"; "data15"; "read"]
        ["noah"; "data15"; "write"] w1 = (Ok tt, w2)
    ∧ documents adapter0 w2 = [d']
    ∧ ¬ updatedAt_advances d d'.
Proof.
  eexists _, _, _, _.
  split; [vm_compute; reflexivity|].
  split; [vm_compute; reflexivity|].
  split; [vm_compute; reflexivity|].
  split; [vm_compute; reflexivity|].
  intros (t & t' & Ht & Ht' & Hlt).
  vm_compute in Ht, Ht'. injection Ht as <-. injection Ht' as <-. lia.
Qed.

(** C2, amended.  When [updatePolicy] runs without failure and [d] is the
    first stored document that matches the old rule's key, the update
    replaces [d] in place by a document with the same [createdAt], with
    [updatedAt] set to the clock reading taken at the update (so strictly
    later than the stored one whenever that reading is later), and with
    every other non-positional field as it was. *)
Theorem updatePolicy_timestamps this sec ptype oldRule newRule w pre d post :
  healthy w →
  documents this w = pre ++ d :: post →
  Forall (λ x, Mongo.matches (rule_line ptype oldRule) x = false) pre →
  Mongo.matches (rule_line ptype oldRule) d = true →
  ∃ w' d',
    updatePolicy this sec ptype oldRule newRule w = (Ok tt, w')
    ∧ documents this w' = pre ++ d' :: post
    ∧ d' !! k_createdAt = d !! k_createdAt
    ∧ d' !! k_updatedAt = Some (VDate (clock w (ticks w)))
    ∧ (∀ t, d !! k_updatedAt = Some (VDate t) →
            (t < clock w (ticks w))%Z → updatedAt_advances d d')
    ∧ (∀ key, ¬ positional key → key ≠ k_updatedAt → d' !! key = d !! key).
Proof.
  intros H Hdocs Hpre Hd.
  set (oldLine := rule_line ptype oldRule) in *.
  set (newLine := <[k_updatedAt := VDate (clock w (ticks w))]>
                    (rule_line ptype newRule)).
  set (op := updateOperation oldLine newLine).
  assert (∀ key, ¬ positional key → Mongo.u_unset op !! key = None) as Hun.
  { intros key Hk. destruct (Mongo.u_unset op !! key) eqn:E; [|done].
    exfalso. apply Hk.
    assert (is_Some (Mongo.u_unset op !! key)) as Hs by (by eexists).
    apply update_unset_index in Hs as (k & -> & _). by exists k. }
  assert (Mongo.apply_update op d !! k_updatedAt
          = Some (VDate (clock w (ticks w)))) as Hupd.
  { rewrite apply_update_lookup, Hun by apply updatedAt_not_positional.
    simpl. unfold newLine. by rewrite lookup_insert_eq. }
  exists (record (UpdateOne (collectionName this) oldLine op)
            (with_store
               (alter_docs (Mongo.updateOne oldLine op) (namespace this)
                  (store w))
               (record (DbCollection (collectionName this))
                  (record (ClientDb (databaseName this)) (tick w))))),
         (Mongo.apply_update op d).
  split; [by apply updatePolicy_healthy|].
  split.
  { unfold documents in *. simpl. rewrite docs_of_alter_docs by done.
    rewrite Hdocs. by apply updateOne_first. }
  split.
  { rewrite apply_update_lookup, Hun by apply createdAt_not_positional.
    simpl. unfold newLine. rewrite lookup_insert_ne by done.
    by rewrite rule_line_createdAt. }
  split; [done|].
  split.
  { intros t Ht Hlt. by exists t, (clock w (ticks w)). }
  intros key Hk Hne. rewrite apply_update_lookup, Hun by done.
  simpl. unfold newLine. rewrite lookup_insert_ne by done.
  destruct (rule_line ptype newRule !! key) as [v|] eqn:Hv; [|done].
  assert (is_Some (rule_line ptype newRule !! key)) as Hs by (by eexists).
  apply rule_line_keys in Hs as [->|?]; [|done].
  rewrite rule_line_ptype in Hv. injection Hv as <-.
  symmetry. apply (proj1 (matches_spec oldLine d) Hd). apply rule_line_ptype.
Qed.

Lemma updatePolicy_timestamps_witness :
  ∃ w' d',
    updatePolicy adapter0 "p" "p" ["noah"; "data15"; "read"]
      ["noah"; "data15"; "write"]
      (with_store
         {[ namespace adapter0 :=
              Collection [inserted 900 "p" ["noah"; "data15"; "read"]] [] ]}
         world0) = (Ok tt, w')
    ∧ documents adapter0 w' = [d']
    ∧ d' !! k_createdAt = Some (VDate 900)
    ∧ d' !! k_updatedAt = Some (VDate 1000).
Proof.
  destruct (updatePolicy_timestamps adapter0 "p" "p"
              ["noah"; "data15"; "read"] ["noah"; "data15"; "write"]
              (with_store
                 {[ namespace adapter0 :=
                      Collection [inserted 900 "p" ["noah"; "data15"; "read"]]
                        [] ]}
                 world0)
              [] (inserted 900 "p" ["noah"; "data15"; "read"]) [])
    as (w' & d' & Hrun & Hdocs & Hc & Hu & _).
  - intros n. reflexivity.
  - vm_compute. reflexivity.
  - constructor.
  - vm_compute. reflexivity.
  - exists w', d'. split; [exact Hrun|]. split; [exact Hdocs|].
    split; [rewrite Hc; vm_compute; reflexivity | exact Hu].
Defined.

(** ** removeFilteredPolicy *)

Lemma filter_step_lookup fi fv line i k :
  filter_step fi fv line i !! vkey k =
    if decide (k = i ∧ (fi ≤ Z.of_nat k < fi + Z.of_nat (length fv))%Z)
    then VStr <$> fv !! Z.to_nat (Z.of_nat k - fi)
    else line !! vkey k.
Proof.
  unfold filter_step.
  destruct (bool_decide (fi ≤ Z.of_nat i)%Z) eqn:H1; simpl.
  2: { apply bool_decide_eq_false in H1. case_decide; [lia|done]. }
  apply bool_decide_eq_true in H1.
  destruct (bool_decide (Z.of_nat i < fi + Z.of_nat (length fv))%Z) eqn:H2.
  2: { apply bool_decide_eq_false in H2. case_decide; [lia|done]. }
  apply bool_decide_eq_true in H2.
  assert (Z.to_nat (Z.of_nat i - fi) < length fv) as Hlt by lia.
  destruct (lookup_lt_is_Some_2 fv _ Hlt) as [s Hs]. rewrite Hs.
  destruct (decide (k = i)) as [->|Hne].
  - rewrite decide_True by lia. by rewrite lookup_insert_eq, Hs.
  - rewrite decide_False by lia.
    apply lookup_insert_ne. intros E. apply vkey_inj in E. lia.
Qed.

Lemma filter_step_frame fi fv line i key :
  ¬ positional key → filter_step fi fv line i !! key = line !! key.
Proof.
  intros Hk. unfold filter_step.
  destruct (_ && _); [|done]. destruct (fv !! _); [|done].
  apply lookup_insert_ne. intros <-. apply Hk. by exists i.
Qed.

Lemma foldl_filter_step_lookup fi fv l : ∀ line k,
  foldl (filter_step fi fv) line l !! vkey k =
    if decide (k ∈ l ∧ (fi ≤ Z.of_nat k < fi + Z.of_nat (length fv))%Z)
    then VStr <$> fv !! Z.to_nat (Z.of_nat k - fi)
    else line !! vkey k.
Proof.
  induction l as [|i l IH]; intros line k; cbn [foldl].
  - rewrite decide_False; [done|]. intros [H _]. by apply elem_of_nil in H.
  - rewrite IH, filter_step_lookup.
    destruct (decide (k ∈ l ∧ _)) as [[Hin Hw]|Hn].
    + rewrite decide_True; [done|]. split; [by right|done].
    + destruct (decide (k = i ∧ _)) as [[-> Hw]|Hn'].
      * rewrite decide_True; [done|]. split; [by left|done].
      * rewrite decide_False; [done|]. intros [Hin Hw].
        apply elem_of_cons in Hin as [->|Hin]; tauto.
Qed.

Lemma foldl_filter_step_frame fi fv l : ∀ line key,
  ¬ positional key → foldl (filter_step fi fv) line l !! key = line !! key.
Proof.
  induction l as [|i l IH]; intros line key Hk; simpl; [done|].
  by rewrite IH, filter_step_frame.
Qed.

Lemma foldl_filter_step_dom fi fv l : ∀ line key,
  is_Some (foldl (filter_step fi fv) line l !! key) →
  is_Some (line !! key) ∨ positional key.
Proof.
  induction l as [|i l IH]; intros line key H; cbn [foldl] in H; [by left|].
  apply IH in H as [H|H]; [|by right]. unfold filter_step in H.
  destruct (_ && _); [|by left]. destruct (fv !! _); [|by left].
  destruct (decide (vkey i = key)) as [<-|Hne]; [right; by exists i|].
  left. by rewrite lookup_insert_ne in H.
Qed.

Lemma filter_fields_field ptype fi fv k :
  filter_fields fi fv {[ k_ptype := VStr ptype ]} !! vkey k =
    if decide (k < 6 ∧ (fi ≤ Z.of_nat k < fi + Z.of_nat (length fv))%Z)
    then VStr <$> fv !! Z.to_nat (Z.of_nat k - fi)
    else None.
Proof.
  unfold filter_fields. rewrite foldl_filter_step_lookup.
  rewrite lookup_singleton_ne by (apply not_eq_sym, vkey_not_ptype).
  destruct (decide (k < 6)) as [H6|H6].
  - assert (k ∈ seq 0 6) by (apply elem_of_seq; lia).
    repeat case_decide; try tauto; done.
  - assert (k ∉ seq 0 6) by (rewrite elem_of_seq; lia).
    repeat case_decide; try tauto; done.
Qed.

Lemma filter_fields_ptype ptype fi fv :
  filter_fields fi fv {[ k_ptype := VStr ptype ]} !! k_ptype
    = Some (VStr ptype).
Proof.
  unfold filter_fields.
  rewrite foldl_filter_step_frame by apply ptype_not_positional.
  apply lookup_singleton_eq.
Qed.

Lemma filter_fields_keys ptype fi fv key :
  is_Some (filter_fields fi fv {[ k_ptype := VStr ptype ]} !! key) →
  key = k_ptype ∨ positional key.
Proof.
  intros H. apply foldl_filter_step_dom in H as [H|H]; [|by right].
  left. destruct (decide (k_ptype = key)) as [|Hne]; [done|].
  rewrite lookup_singleton_ne in H by done. by destruct H.
Qed.

Lemma removeFilteredPolicy_healthy this sec ptype fi fv w :
  healthy w →
  let line := filter_fields fi fv {[ k_ptype := VStr ptype ]} in
  removeFilteredPolicy this sec ptype fi fv w =
    (Ok tt,
     record (DeleteMany (collectionName this) line)
       (with_store
          (alter_docs (Mongo.deleteMany line) (namespace this) (store w))
          (record (DbCollection (collectionName this))
             (record (ClientDb (databaseName this)) w)))).
Proof.
  intros H line. unfold removeFilteredPolicy.
  erewrite bind_ok by (apply getCollection_healthy; auto with healthy).
  rewrite extern_healthy by auto with healthy. reflexivity.
Qed.

Lemma alter_docs_same f n s :
  f (docs_of s n) = docs_of s n → alter_docs f n s = s.
Proof.
  unfold alter_docs, docs_of. destruct (s !! n) as [c|] eqn:Hc; [|done].
  simpl. intros ->. apply insert_id. rewrite Hc. by destruct c.
Qed.

Lemma filter_none {A} (f : A → bool) (l : list A) :
  Forall (λ x, f x = true) l → List.filter f l = l.
Proof. induction 1 as [|x l Hx _ IH]; simpl; [done|]. by rewrite Hx, IH. Qed.

Lemma filter_fields_matches ptype fi fv d :
  Mongo.matches (filter_fields fi fv {[ k_ptype := VStr ptype ]}) d = true
  ↔ d !! k_ptype = Some (VStr ptype)
    ∧ ∀ k, k < 6 ∧ (fi ≤ Z.of_nat k < fi + Z.of_nat (length fv))%Z →
           d !! vkey k = VStr <$> fv !! Z.to_nat (Z.of_nat k - fi).
Proof.
  rewrite matches_spec. split.
  - intros H. split; [apply H, filter_fields_ptype|].
    intros k Hk. pose proof (filter_fields_field ptype fi fv k) as Hf.
    rewrite decide_True in Hf by done.
    assert (Z.to_nat (Z.of_nat k - fi) < length fv) as Hlt by lia.
    destruct (lookup_lt_is_Some_2 fv _ Hlt) as [x Hx].
    rewrite Hx in *. by apply H.
  - intros [Hp Hv] key v Hkey.
    assert (is_Some (filter_fields fi fv {[k_ptype := VStr ptype]} !! key))
      as Hs by (by eexists).
    apply filter_fields_keys in Hs as [->|[k ->]].
    + rewrite filter_fields_ptype in Hkey. congruence.
    + rewrite filter_fields_field in Hkey.
      case_decide as Hb; [|done]. by rewrite Hv.
Qed.

(** C3, as stated, fails beyond [v5]: with offset 5 and the two values
    x, y the filter binds [v5] only, and a rule with [v5 = x] is deleted
    although it has no [v6] equal to y. *)
Lemma removeFilteredPolicy_beyond_v5 :
  ∃ w1 w2 d,
    addPolicy adapter0 "p" "p" ["a"; "b"; "c"; "d"; "e"; "x"] world0
      = (Ok tt, w1)
    ∧ documents adapter0 w1 = [d]
    ∧ removeFilteredPolicy adapter0 "p" "p" 5 ["x"; "y"] w1 = (Ok tt, w2)
    ∧ ¬ slice_equals "p" 5 ["x"; "y"] d
    ∧ documents adapter0 w2 = [].
Proof.
  eexists _, _, _.
  split; [vm_compute; reflexivity|].
  split; [vm_compute; reflexivity|].
  split; [vm_compute; reflexivity|].
  split; [|vm_compute; reflexivity].
  intros [_ H]. specialize (H 1 "y" eq_refl). vm_compute in H. discriminate.
Qed.

(** C3, amended.  [removeFilteredPolicy] builds a partial-match document
    holding [ptype] and exactly the fields [v_i] whose index [i] lies both
    in the window [offset .. offset+k] and in [0..5], each bound to the
    value given for it; in a run without failure it makes one [deleteMany]
    call with that document, which removes exactly the documents holding
    that ptype and those values (whatever their other fields) and keeps the
    others as they are, in order; when nothing matches the store is
    unchanged.  When the window lies within [v0..v5] the documents removed
    are exactly those whose slice equals the given values. *)
Theorem removeFilteredPolicy_spec this sec ptype fieldIndex fieldValues w :
  healthy w →
  let line := filter_fields fieldIndex fieldValues {[ k_ptype := VStr ptype ]} in
  line !! k_ptype = Some (VStr ptype)
  ∧ (∀ k, line !! vkey k =
       if decide (k < 6 ∧ (fieldIndex ≤ Z.of_nat k
                           < fieldIndex + Z.of_nat (length fieldValues))%Z)
       then VStr <$> fieldValues !! Z.to_nat (Z.of_nat k - fieldIndex)
       else None)
  ∧ (∀ k, (fieldIndex ≤ Z.of_nat k
           < fieldIndex + Z.of_nat (length fieldValues))%Z →
          is_Some (fieldValues !! Z.to_nat (Z.of_nat k - fieldIndex)))
  ∧ (∀ key, is_Some (line !! key) → key = k_ptype ∨ positional key)
  ∧ (∀ d, Mongo.matches line d = true
          ↔ d !! k_ptype = Some (VStr ptype)
            ∧ ∀ k, k < 6 ∧ (fieldIndex ≤ Z.of_nat k
                            < fieldIndex + Z.of_nat (length fieldValues))%Z →
                   d !! vkey k
                   = VStr <$> fieldValues !! Z.to_nat (Z.of_nat k - fieldIndex))
  ∧ ((0 ≤ fieldIndex)%Z →
     (fieldIndex + Z.of_nat (length fieldValues) ≤ 6)%Z →
     ∀ d, Mongo.matches line d = true
          ↔ slice_equals ptype (Z.to_nat fieldIndex) fieldValues d)
  ∧ ∃ w', removeFilteredPolicy this sec ptype fieldIndex fieldValues w
            = (Ok tt, w')
      ∧ journal w' =
          journal w ++ [ClientDb (databaseName this);
                        DbCollection (collectionName this);
                        DeleteMany (collectionName this) line]
      ∧ documents this w'
          = List.filter (λ d, negb (Mongo.matches line d)) (documents this w)
      ∧ (Forall (λ d, Mongo.matches line d = false) (documents this w) →
         store w' = store w).
Proof.
  intros H line.
  split; [apply filter_fields_ptype|].
  split; [apply filter_fields_field|].
  split. { intros k Hk. apply lookup_lt_is_Some_2. lia. }
  split; [apply filter_fields_keys|].
  split; [apply filter_fields_matches|].
  split.
  { intros H0 H6 d. unfold line. rewrite filter_fields_matches.
    unfold slice_equals. split; intros [Hp Hv]; (split; [done|]).
    - intros j x Hx. apply lookup_lt_Some in Hx as Hj.
      rewrite (Hv (Z.to_nat fieldIndex + j)) by lia.
      replace (Z.to_nat (Z.of_nat (Z.to_nat fieldIndex + j) - fieldIndex))
        with j by lia.
      by rewrite Hx.
    - intros k Hk.
      assert (Z.to_nat (Z.of_nat k - fieldIndex) < length fieldValues)
        as Hlt by lia.
      destruct (lookup_lt_is_Some_2 fieldValues _ Hlt) as [x Hx].
      rewrite Hx. simpl. apply Hv in Hx.
      by replace (Z.to_nat fieldIndex + Z.to_nat (Z.of_nat k - fieldIndex))
        with k in Hx by lia. }
  eexists. split; [by apply removeFilteredPolicy_healthy|].
  split. { simpl. by rewrite <- !app_assoc. }
  split. { unfold documents. simpl. by apply docs_of_alter_docs. }
  intros Hnone. simpl. apply alter_docs_same.
  unfold Mongo.deleteMany. apply filter_none.
  eapply Forall_impl; [exact Hnone|]. intros d Hd. simpl in Hd.
  fold line. by rewrite Hd.
Qed.

(** The scenario of the tests: three rules, [removeFilteredPolicy(0,
    'harry')] keeps the one rule of another subject. *)
Lemma removeFilteredPolicy_spec_witness :
  let w := with_store
             {[ namespace adapter0 :=
                  Collection
                    [inserted 1000 "p" ["harry"; "data8"; "read"];
                     inserted 1001 "p" ["harry"; "data9"; "write"];
                     inserted 1002 "p" ["ivy"; "data10"; "read"]] [] ]}
             world0 in
  ∃ w',
    removeFilteredPolicy adapter0 "p" "p" 0 ["harry"] w = (Ok tt, w')
    ∧ documents adapter0 w' = [inserted 1002 "p" ["ivy"; "data10"; "read"]].
Proof.
  intros w.
  assert (healthy w) as Hw by (intros n; reflexivity).
  destruct (removeFilteredPolicy_spec adapter0 "p" "p" 0 ["harry"] w Hw)
    as (_ & _ & _ & _ & _ & _ & w' & Hrun & _ & Hdocs & _).
  exists w'. split; [exact Hrun|].
  rewrite Hdocs. vm_compute. reflexivity.
Defined.

(** ** savePolicy *)

Lemma advance_tick n w : advance n (tick w) = advance (S n) w.
Proof. unfold advance. by rewrite Nat.iter_succ_r. Qed.

Lemma clock_advance n w : clock (advance n w) = clock w.
Proof. induction n as [|n IH]; [done|]. simpl. exact IH. Qed.

Lemma ticks_advance n w : ticks (advance n w) = n + ticks w.
Proof. induction n as [|n IH]; [done|]. simpl. by rewrite IH. Qed.

Lemma store_advance n w : store (advance n w) = store w.
Proof. induction n as [|n IH]; [done|]. simpl. exact IH. Qed.

Lemma journal_advance n w : journal (advance n w) = journal w.
Proof. induction n as [|n IH]; [done|]. simpl. exact IH. Qed.

Lemma healthy_advance n w : healthy w → healthy (advance n w).
Proof. intros H. induction n as [|n IH]; [done|]. simpl. by apply healthy_tick. Qed.

#[global] Hint Resolve healthy_advance : healthy.

Lemma advance_add n k w : advance n (advance k w) = advance (n + k) w.
Proof. unfold advance. by rewrite Nat.iter_add. Qed.

Lemma stamp_all_app clk t0 l1 l2 :
  stamp_all clk t0 (l1 ++ l2)
  = stamp_all clk t0 l1 ++ stamp_all clk (length l1 + t0) l2.
Proof.
  unfold stamp_all. rewrite imap_app. f_equal.
  apply imap_ext. intros i pr _. simpl. do 2 f_equal. lia.
Qed.

Lemma stamp_all_length clk t0 l : length (stamp_all clk t0 l) = length l.
Proof. unfold stamp_all. apply length_imap. Qed.

Lemma stamp_all_lookup clk t0 l i ptype rule :
  l !! i = Some (ptype, rule) →
  stamp_all clk t0 l !! i = Some (inserted (clk (t0 + i)) ptype rule).
Proof. intros H. unfold stamp_all. by rewrite list_lookup_imap, H. Qed.

Lemma mapM_savePolicyLine ptype rules : ∀ w,
  mapM (savePolicyLine ptype) rules w =
    (Ok (stamp_all (clock w) (ticks w) (map (pair ptype) rules)),
     advance (length rules) w).
Proof.
  induction rules as [|rule rules IH]; intros w; [done|].
  cbn [mapM]. erewrite bind_ok by apply convert_both.
  erewrite bind_ok by apply IH.
  unfold mret, M_ret. rewrite advance_tick. f_equal. f_equal.
  change (map (pair ptype) (rule :: rules))
    with ([(ptype, rule)] ++ map (pair ptype) rules).
  rewrite stamp_all_app. simpl. f_equal.
  unfold inserted. by rewrite Nat.add_0_r.
Qed.

Lemma mapM_per_type (astMap : list (string * Assertion)) : ∀ w,
  ∃ per_type,
    mapM (λ entry, mapM (savePolicyLine entry.1) (policy entry.2)) astMap w
      = (Ok per_type,
         advance (length (flat_map (λ entry, map (pair entry.1)
                                                 (policy entry.2)) astMap)) w)
    ∧ concat per_type
      = stamp_all (clock w) (ticks w)
          (flat_map (λ entry, map (pair entry.1) (policy entry.2)) astMap).
Proof.
  induction astMap as [|entry astMap IH]; intros w.
  - exists []. done.
  - cbn [mapM flat_map].
    destruct (IH (advance (length (policy entry.2)) w)) as (rest & Hrun & Hcat).
    eexists. split.
    + erewrite bind_ok by apply mapM_savePolicyLine.
      erewrite bind_ok by apply Hrun.
      unfold mret, M_ret. rewrite advance_add, length_app, length_map.
      do 2 f_equal. lia.
    + cbn [concat]. rewrite Hcat, stamp_all_app, length_map.
      by rewrite clock_advance, ticks_advance.
Qed.

Lemma extractPolicyRules_run m key w :
  extractPolicyRules m key w =
    (Ok (stamp_all (clock w) (ticks w) (rules_of m key)),
     advance (length (rules_of m key)) w).
Proof.
  unfold extractPolicyRules, rules_of.
  destruct (model m !! key) as [astMap|]; [|done].
  destruct (mapM_per_type astMap w) as (per_type & Hrun & Hcat).
  erewrite bind_ok by apply Hrun. unfold mret, M_ret. by rewrite Hcat.
Qed.

Lemma getAllPolicyRules_run m w :
  getAllPolicyRules m w =
    (Ok (stamp_all (clock w) (ticks w) (rules_of m "p" ++ rules_of m "g")),
     advance (length (rules_of m "p" ++ rules_of m "g")) w).
Proof.
  unfold getAllPolicyRules.
  erewrite bind_ok by apply extractPolicyRules_run.
  erewrite bind_ok by apply extractPolicyRules_run.
  unfold mret, M_ret.
  rewrite advance_add, stamp_all_app, clock_advance, ticks_advance, length_app.
  do 2 f_equal. lia.
Qed.

Lemma matches_empty d : Mongo.matches ∅ d = true.
Proof. apply matches_spec. intros k v H. by rewrite lookup_empty in H. Qed.

Lemma deleteMany_empty ds : Mongo.deleteMany ∅ ds = [].
Proof.
  induction ds as [|d ds IH]; [done|]. simpl. by rewrite matches_empty.
Qed.

Lemma clearCollection_healthy this w :
  healthy w →
  ∃ w', clearCollection this w = (Ok tt, w')
    ∧ healthy w' ∧ clock w' = clock w ∧ ticks w' = ticks w
    ∧ journal w' =
        journal w ++ [ClientDb (databaseName this);
                      ListCollections (collectionName this)]
        ++ (if bool_decide (is_Some (store w !! namespace this)) then
              [ClientDb (databaseName this);
               DbCollection (collectionName this);
               if dropCollectionOnManualSave this
               then Drop (collectionName this)
               else DeleteMany (collectionName this) ∅]
            else [])
    ∧ store w' =
        if bool_decide (is_Some (store w !! namespace this)) then
          if dropCollectionOnManualSave this
          then delete (namespace this) (store w)
          else alter_docs (Mongo.deleteMany ∅) (namespace this) (store w)
        else store w.
Proof.
  intros H. unfold clearCollection.
  set (w1 := record (ListCollections (collectionName this))
               (record (ClientDb (databaseName this)) w)).
  assert (healthy w1) as H1 by (unfold w1; auto with healthy).
  change (databaseName this, collectionName this) with (namespace this).
  destruct (bool_decide (is_Some (store w !! namespace this))) eqn:Hex.
  - destruct (dropCollectionOnManualSave this) eqn:Hdrop.
    + eexists. split.
      { apply try_ok.
        erewrite bind_ok by (apply getDatabase_healthy; done).
        erewrite bind_ok by (apply extern_read_healthy; auto with healthy).
        cbn [store record].
        change (databaseName this, collectionName this) with (namespace this).
        rewrite Hex.
        erewrite bind_ok by (apply (getCollection_healthy this w1); done).
        apply extern_healthy. unfold w1. auto with healthy. }
      split; [unfold w1; auto with healthy|].
      split; [done|]. split; [done|].
      split; [simpl; by rewrite <- !app_assoc|done].
    + eexists. split.
      { apply try_ok.
        erewrite bind_ok by (apply getDatabase_healthy; done).
        erewrite bind_ok by (apply extern_read_healthy; auto with healthy).
        cbn [store record].
        change (databaseName this, collectionName this) with (namespace this).
        rewrite Hex.
        erewrite bind_ok by (apply (getCollection_healthy this w1); done).
        apply extern_healthy. unfold w1. auto with healthy. }
      split; [unfold w1; auto with healthy|].
      split; [done|]. split; [done|].
      split; [simpl; by rewrite <- !app_assoc|done].
  - exists w1. split.
    { apply try_ok.
      erewrite bind_ok by (apply getDatabase_healthy; done).
      erewrite bind_ok by (apply extern_read_healthy; auto with healthy).
      cbn [store record].
      change (databaseName this, collectionName this) with (namespace this).
      by rewrite Hex. }
    split; [done|]. split; [done|]. split; [done|].
    split; [simpl; by rewrite ?app_nil_r, <- ?app_assoc|done].
Qed.

Lemma cleared_documents (this : MongoAdapter)
    (s : gmap (string * string) collection) :
  docs_of
    (if bool_decide (is_Some (s !! namespace this)) then
       if dropCollectionOnManualSave this
       then delete (namespace this) s
       else alter_docs (Mongo.deleteMany ∅) (namespace this) s
     else s) (namespace this) = [].
Proof.
  case_bool_decide as Hex.
  - destruct (dropCollectionOnManualSave this).
    + unfold docs_of. by rewrite lookup_delete_eq.
    + rewrite docs_of_alter_docs by done. apply deleteMany_empty.
  - unfold docs_of. rewrite <- eq_None_not_Some in Hex. by rewrite Hex.
Qed.

Lemma inserted_stamps now ptype rule :
  inserted now ptype rule !! k_createdAt = Some (VDate now)
  ∧ inserted now ptype rule !! k_updatedAt = Some (VDate now).
Proof.
  unfold inserted. split.
  - by rewrite lookup_insert_ne, lookup_insert_eq.
  - by rewrite lookup_insert_eq.
Qed.

(** C5.  In a run without failures [savePolicy] returns [true].  It first
    looks the collection up and, when it exists, drops it if the
    drop-on-save flag was set at construction and deletes all its documents
    otherwise; it then builds one document per rule of the model, the rules
    under ['p'] before those under ['g'], each stamped with one clock
    reading as both [createdAt] and [updatedAt], and inserts them with one
    [insertMany] (none when the model holds no rule).  Afterwards the
    collection holds exactly those documents. *)
Theorem savePolicy_spec this m w :
  healthy w →
  let rules := rules_of m "p" ++ rules_of m "g" in
  let allRules := stamp_all (clock w) (ticks w) rules in
  ∃ w', savePolicy this m w = (Ok true, w')
    ∧ journal w' =
        journal w ++ [ClientDb (databaseName this);
                      ListCollections (collectionName this)]
        ++ (if bool_decide (is_Some (store w !! namespace this)) then
              [ClientDb (databaseName this);
               DbCollection (collectionName this);
               if dropCollectionOnManualSave this
               then Drop (collectionName this)
               else DeleteMany (collectionName this) ∅]
            else [])
        ++ (if bool_decide (0 < length allRules) then
              [ClientDb (databaseName this);
               DbCollection (collectionName this);
               InsertMany (collectionName this) allRules]
            else [])
    ∧ documents this w' = allRules
    ∧ length allRules = length rules
    ∧ (∀ i ptype rule, rules !! i = Some (ptype, rule) →
         allRules !! i = Some (inserted (clock w (ticks w + i)) ptype rule))
    ∧ Forall (λ d, ∃ t, d !! k_createdAt = Some (VDate t)
                        ∧ d !! k_updatedAt = Some (VDate t)) allRules.
Proof.
  intros H rules allRules.
  destruct (clearCollection_healthy this w H)
    as (w1 & Hclear & H1 & Hclock & Hticks & Hj & Hs).
  set (w2 := advance (length rules) w1).
  assert (healthy w2) as H2 by (unfold w2; auto with healthy).
  assert (getAllPolicyRules m w1 = (Ok allRules, w2)) as Hall.
  { rewrite getAllPolicyRules_run. by rewrite Hclock, Hticks. }
  assert (documents this w2 = []) as Hdocs.
  { unfold documents, w2. rewrite store_advance, Hs. apply cleared_documents. }
  assert (journal w2 = journal w1) as Hj2 by apply journal_advance.
  assert (∃ w', savePolicy this m w = (Ok true, w')
            ∧ journal w' = journal w2
                ++ (if bool_decide (0 < length allRules) then
                      [ClientDb (databaseName this);
                       DbCollection (collectionName this);
                       InsertMany (collectionName this) allRules]
                    else [])
            ∧ documents this w' = allRules) as (w' & Hrun & Hj' & Hd').
  { unfold savePolicy. erewrite bind_ok by apply Hclear.
    erewrite bind_ok by apply Hall.
    destruct (bool_decide (0 < length allRules)) eqn:Hlen.
    - eexists. split.
      { erewrite bind_ok; [reflexivity|].
        erewrite bind_ok by (apply getCollection_healthy; done).
        apply extern_healthy. auto with healthy. }
      split; [simpl; by rewrite <- !app_assoc|].
      unfold documents in *. simpl.
      rewrite docs_of_upsert_docs, Hdocs. done.
    - exists w2. split; [done|]. split; [by rewrite app_nil_r|].
      rewrite Hdocs. symmetry. apply nil_length_inv.
      apply bool_decide_eq_false in Hlen. lia. }
  exists w'. split; [done|].
  split; [by rewrite Hj', Hj2, Hj, <- !app_assoc|].
  split; [done|].
  split; [apply stamp_all_length|].
  split; [intros i ptype rule; apply stamp_all_lookup|].
  apply Forall_forall. intros d Hd.
  apply list_elem_of_lookup in Hd as [i Hi].
  assert (i < length rules) as Hlt.
  { apply lookup_lt_Some in Hi. by rewrite <- (stamp_all_length (clock w) (ticks w)). }
  destruct (lookup_lt_is_Some_2 rules i Hlt) as [[ptype rule] Hr].
  unfold allRules in Hi. rewrite (stamp_all_lookup _ _ _ _ _ _ Hr) in Hi.
  injection Hi as <-. eexists. apply inserted_stamps.
Qed.

Lemma savePolicy_spec_witness :
  ∃ w', savePolicy adapter0 model0 world0 = (Ok true, w')
    ∧ documents adapter0 w' =
        [inserted 1000 "p" ["alice"; "data1"; "read"];
         inserted 1001 "p" ["bob"; "data2"; "write"];
         inserted 1002 "p2" ["carol"; "data3"];
         inserted 1003 "g" ["alice"; "admin"]].
Proof.
  destruct (savePolicy_spec adapter0 model0 world0 healthy_world0)
    as (w' & Hrun & _ & Hdocs & _).
  exists w'. split; [exact Hrun|].
  rewrite Hdocs. vm_compute. reflexivity.
Defined.

(** ** Loading *)

Lemma loadPolicyLine_healthy d w :
  healthy w →
  loadPolicyLine d w =
    (Ok tt, record (HelperLoadPolicyLine (policy_line (date_text w) d)) w).
Proof. intros H. unfold loadPolicyLine. by apply extern_pure_healthy. Qed.

Lemma mapM_loadPolicyLine lines : ∀ w,
  healthy w →
  ∃ units w', mapM loadPolicyLine lines w = (Ok units, w')
    ∧ healthy w' ∧ store w' = store w
    ∧ journal w' =
        journal w
        ++ map (λ d, HelperLoadPolicyLine (policy_line (date_text w) d)) lines.
Proof.
  induction lines as [|d lines IH]; intros w H.
  - exists [], w. simpl. by rewrite app_nil_r.
  - destruct (IH (record (HelperLoadPolicyLine (policy_line (date_text w) d)) w))
      as (units & w' & Hrun & H' & Hs & Hj); [auto with healthy|].
    exists (tt :: units), w'. split.
    + cbn [mapM]. erewrite bind_ok by (by apply loadPolicyLine_healthy).
      erewrite bind_ok by apply Hrun. done.
    + split; [done|]. split; [done|].
      rewrite Hj. simpl. by rewrite <- app_assoc.
Qed.

Lemma loadFilteredPolicy_healthy this filter w :
  healthy w →
  let q := if useFilter this then filter else None in
  ∃ w', loadFilteredPolicy this filter w = (Ok tt, w')
    ∧ store w' = store w
    ∧ journal w' =
        journal w
        ++ [ClientDb (databaseName this); DbCollection (collectionName this);
            Find (collectionName this) q]
        ++ map (λ d, HelperLoadPolicyLine (policy_line (date_text w) d))
             (List.filter (default (λ _, true) q) (documents this w)).
Proof.
  intros H q.
  set (w1 := record (Find (collectionName this) q)
               (record (DbCollection (collectionName this))
                  (record (ClientDb (databaseName this)) w))).
  destruct (mapM_loadPolicyLine
              (List.filter (default (λ _, true) q) (documents this w)) w1)
    as (units & w' & Hrun & _ & Hs & Hj); [unfold w1; auto with healthy|].
  exists w'. split.
  - unfold loadFilteredPolicy. apply try_ok.
    erewrite bind_ok.
    2: { unfold getFilteredPolicyLines.
         erewrite bind_ok by (by apply getCollection_healthy).
         apply extern_read_healthy. auto with healthy. }
    cbn [store record]. fold q. fold w1.
    erewrite bind_ok by apply Hrun. done.
  - split; [done|]. rewrite Hj. simpl. by rewrite <- !app_assoc.
Qed.

Lemma filter_all {A} (l : list A) : List.filter (λ _, true) l = l.
Proof. induction l as [|x l IH]; simpl; [done|]. by rewrite IH. Qed.

Lemma texts_of_fields dt (d : document) ks :
  (∀ k t, d !! vkey k ≠ Some (VDate t)) →
  map (js_text dt) (List.filter truthy (map (λ k, d !! vkey k) ks))
  = List.filter nonempty (omap (str_field d) ks).
Proof.
  intros Hd. induction ks as [|k ks IH]; [done|].
  cbn [map List.filter].
  change (omap (str_field d) (k :: ks))
    with (match str_field d k with
          | Some y => y :: omap (str_field d) ks
          | None => omap (str_field d) ks
          end).
  unfold str_field at 1.
  destruct (d !! vkey k) as [[s|t]|] eqn:Hk.
  - cbn [truthy List.filter]. fold (nonempty s).
    destruct (nonempty s); cbn [map js_text]; by rewrite IH.
  - by destruct (Hd k t).
  - exact IH.
Qed.

Lemma policy_line_present dt (d : document) ptype :
  d !! k_ptype = Some (VStr ptype) →
  (∀ k t, d !! vkey k ≠ Some (VDate t)) →
  policy_line dt d =
    ptype +:+ ", " +:+
    String.concat ", " (List.filter nonempty (present_fields d)).
Proof.
  intros Hp Hd. unfold policy_line, present_fields. rewrite Hp.
  by rewrite <- (texts_of_fields dt d (seq 0 6) Hd).
Qed.

Lemma omap_lookup_seq {A} (l : list A) n :
  omap (λ k, l !! k) (seq 0 n) = take n l.
Proof.
  induction n as [|n IH]; [done|].
  rewrite seq_S, omap_app, IH. csimpl.
  destruct (l !! n) as [x|] eqn:Hx; csimpl.
  - by rewrite (take_S_r _ _ _ Hx).
  - apply lookup_ge_None in Hx. rewrite app_nil_r.
    by rewrite !take_ge by lia.
Qed.

Lemma omap_ext_in {A B} (f g : A → option B) (l : list A) :
  (∀ x, x ∈ l → f x = g x) → omap f l = omap g l.
Proof.
  induction l as [|x l IH]; intros H; [done|].
  csimpl. rewrite (H x) by (by left).
  rewrite IH by (intros y Hy; apply H; by right). done.
Qed.

Lemma present_fields_of_rule (d : document) rule :
  (∀ k, d !! vkey k = if decide (k < 6) then VStr <$> rule !! k else None) →
  present_fields d = take 6 rule.
Proof.
  intros Hd. unfold present_fields. rewrite <- omap_lookup_seq.
  apply omap_ext_in. intros k Hk. apply elem_of_seq in Hk.
  unfold str_field. rewrite Hd, decide_True by lia.
  by destruct (rule !! k).
Qed.

Lemma filter_nonempty rule :
  Forall (λ s, s ≠ "") rule → List.filter nonempty rule = rule.
Proof.
  intros H. apply filter_none. eapply Forall_impl; [exact H|].
  intros s Hs. simpl in Hs. unfold nonempty. by rewrite bool_decide_eq_false_2.
Qed.

Lemma policy_line_of_rule dt (d : document) ptype rule :
  Forall (λ s, s ≠ "") rule →
  d !! k_ptype = Some (VStr ptype) →
  (∀ k, d !! vkey k = if decide (k < 6) then VStr <$> rule !! k else None) →
  policy_line dt d = ptype +:+ ", " +:+ String.concat ", " (take 6 rule).
Proof.
  intros Hne Hp Hd. rewrite (policy_line_present dt d ptype Hp).
  - rewrite (present_fields_of_rule d rule Hd).
    rewrite filter_nonempty; [done|]. by apply Forall_take.
  - intros k t. rewrite Hd. case_decide; [|done]. by destruct (rule !! k).
Qed.



Lemma policy_line_delete_empty dt (d : document) k :
  d !! vkey k = Some (VStr "") →
  policy_line dt (delete (vkey k) d) = policy_line dt d.
Proof.
  intros Hk. unfold policy_line.
  rewrite lookup_delete_ne by apply vkey_not_ptype.
  assert (∀ j, truthy (delete (vkey k) d !! vkey j) = truthy (d !! vkey j)
               ∧ (truthy (d !! vkey j) = true →
                  delete (vkey k) d !! vkey j = d !! vkey j)) as Hj.
  { intros j. destruct (decide (j = k)) as [->|Hne].
    - rewrite lookup_delete_eq, Hk. done.
    - rewrite lookup_delete_ne; [done|].
      intros E. apply vkey_inj in E. lia. }
  assert (∀ js, List.filter truthy (map (λ j, delete (vkey k) d !! vkey j) js)
                = List.filter truthy (map (λ j, d !! vkey j) js)) as Hjs.
  { induction js as [|j js IH]; [done|]. cbn [map List.filter].
    destruct (Hj j) as [-> Hsame].
    destruct (truthy (d !! vkey j)) eqn:Ht; [|exact IH].
    by rewrite Hsame, IH. }
  pose proof (Hjs [0; 1; 2; 3; 4; 5]) as E. cbn [map] in E. by rewrite E.
Qed.

(** C10.  The line built for a stored document (its ptype and positional
    fields strings) is the ptype, then ", ", then the non-empty ones among
    the fields [v0..v5] it holds, in order, joined by ", ".  A field whose
    value is the empty string is left out wherever it stands: the line is
    the one of the document without that field, so the later fields move
    down.  That line is what the hook is called with. *)
Theorem loadPolicyLine_drops_empty_fields (d : document) ptype w :
  d !! k_ptype = Some (VStr ptype) →
  (∀ k t, d !! vkey k ≠ Some (VDate t)) →
  policy_line (date_text w) d
    = ptype +:+ ", " +:+
      String.concat ", " (List.filter nonempty (present_fields d))
  ∧ (∀ k, d !! vkey k = Some (VStr "") →
          policy_line (date_text w) (delete (vkey k) d)
          = policy_line (date_text w) d)
  ∧ (healthy w →
     loadPolicyLine d w
     = (Ok tt, record (HelperLoadPolicyLine (policy_line (date_text w) d)) w)).
Proof.
  intros Hp Hd. split; [by apply policy_line_present|].
  split; [intros k; apply policy_line_delete_empty|].
  apply loadPolicyLine_healthy.
Qed.

(** A rule persisted with an empty second field is loaded as a two-field
    rule. *)
Lemma loadPolicyLine_drops_empty_fields_witness :
  policy_line (date_text world0) (inserted 1000 "p" ["alice"; ""; "read"])
  = "p, alice, read".
Proof.
  destruct (loadPolicyLine_drops_empty_fields
              (inserted 1000 "p" ["alice"; ""; "read"]) "p" world0)
    as (Hline & _).
  - vm_compute. reflexivity.
  - intros k t.
    rewrite inserted_field, rule_line_field.
    case_decide; [|done].
    by destruct (["alice"; ""; "read"] !! k).
  - rewrite Hline. vm_compute. reflexivity.
Defined.

(** ** Filtered loading and the capability query *)

Lemma constructor_flag uri database collection filtered dropFlag w a w' :
  constructor uri database collection filtered dropFlag w = (Ok a, w') →
  isFiltered a = filtered.
Proof.
  unfold constructor. case_bool_decide; [done|].
  unfold mbind, M_bind, try_catch, extern, throw, mret, M_ret.
  destruct (fault w (length (journal w))); [done|].
  intros [= <- _]. done.
Qed.

(** C7, as stated, fails: a filtered load sets no flag.  An adapter made
    with the default flags answers [false] to [isFiltered] after a filtered
    load has run. *)
Lemma loadFilteredPolicy_sets_no_flag :
  ∃ a w1 w2,
    newAdapter "mongodb://localhost:27017" "casbin" "policies" None None
      world0 = (Ok a, w1)
    ∧ loadFilteredPolicy a (Some (Mongo.matches {[ k_ptype := VStr "p" ]})) w1
      = (Ok tt, w2)
    ∧ isFiltered a = false.
Proof.
  eexists _, _, _.
  split; [vm_compute; reflexivity|].
  split; [vm_compute; reflexivity|].
  reflexivity.
Qed.

(** C7, amended.  In a run without failures of a filtered load: when the
    filtering-mode flag is enabled the supplied filter is the one given to
    the read, and the hook receives the documents it selects; otherwise the
    read has no filter, the hook receives every document and the filter
    argument is ignored.  The load sets no flag: [isFiltered] returns the
    filtering-mode flag, which is the one given at construction. *)
Theorem loadFilteredPolicy_spec this filter w :
  healthy w →
  (∃ w', loadFilteredPolicy this filter w = (Ok tt, w')
     ∧ store w' = store w
     ∧ (useFilter this = true →
        journal w' =
          journal w
          ++ [ClientDb (databaseName this); DbCollection (collectionName this);
              Find (collectionName this) filter]
          ++ map (λ d, HelperLoadPolicyLine (policy_line (date_text w) d))
               (List.filter (default (λ _, true) filter) (documents this w)))
     ∧ (useFilter this = false →
        journal w' =
          journal w
          ++ [ClientDb (databaseName this); DbCollection (collectionName this);
              Find (collectionName this) None]
          ++ map (λ d, HelperLoadPolicyLine (policy_line (date_text w) d))
               (documents this w)))
  ∧ isFiltered this = useFilter this
  ∧ (∀ uri database collection filtered dropFlag w0 a w1,
       constructor uri database collection filtered dropFlag w0 = (Ok a, w1) →
       isFiltered a = filtered).
Proof.
  intros H. split.
  - destruct (loadFilteredPolicy_healthy this filter w H)
      as (w' & Hrun & Hs & Hj).
    exists w'. split; [exact Hrun|]. split; [exact Hs|].
    split; intros Hf; rewrite Hf in Hj; [exact Hj|].
    rewrite Hj. simpl. by rewrite filter_all.
  - split; [done|]. intros *. apply constructor_flag.
Qed.

Lemma loadFilteredPolicy_spec_witness :
  let docs := [inserted 1000 "p" ["harry"; "data8"; "read"];
               inserted 1001 "g" ["harry"; "admin"]] in
  let w := with_store {[ namespace adapter0 := Collection docs [] ]} world0 in
  ∃ w', loadFilteredPolicy adapter0
          (Some (Mongo.matches {[ k_ptype := VStr "g" ]})) w = (Ok tt, w')
    ∧ journal w' =
        [ClientDb "casbin"; DbCollection "policies"; Find "policies" None;
         HelperLoadPolicyLine "p, harry, data8, read";
         HelperLoadPolicyLine "g, harry, admin"].
Proof.
  intros docs w.
  assert (healthy w) as Hw by (intros n; reflexivity).
  destruct (loadFilteredPolicy_spec adapter0
              (Some (Mongo.matches {[ k_ptype := VStr "g" ]})) w Hw)
    as ((w' & Hrun & _ & _ & Hj) & _).
  exists w'. split; [exact Hrun|].
  rewrite Hj by reflexivity. vm_compute. reflexivity.
Defined.

(** ** Construction *)

(** C9.  Constructing an adapter with the empty connection string throws
    the configuration error at once: no call leaves the adapter (the world,
    and so its journal, is as before), also through [newAdapter], which
    never gets to open a connection.  With a non-empty connection string
    the only call made is the construction of the client, which is not a
    network call, and the outcome is the adapter or the wrapped error of
    that construction, never the configuration error. *)
Theorem constructor_requires_uri database collection filtered dropFlag w :
  constructor "" database collection filtered dropFlag w
    = (Throw (MongoAdapterError "MongoDB URI is required." None), w)
  ∧ (∀ f d, newAdapter "" database collection f d w
            = (Throw (MongoAdapterError "MongoDB URI is required." None), w))
  ∧ ∀ uri, uri ≠ "" →
      journal (constructor uri database collection filtered dropFlag w).2
        = journal w ++ [NewMongoClient uri]
      ∧ network (NewMongoClient uri) = false
      ∧ (constructor uri database collection filtered dropFlag w).1
          = match fault w (length (journal w)) with
            | None =>
                Ok {| databaseName := database;
                      mongoClient := uri;
                      collectionName := collection;
                      dropCollectionOnManualSave := dropFlag;
                      useFilter := filtered |}
            | Some msg =>
                Throw (MongoAdapterError
                         ("Failed to create MongoClient: " +:+ msg)
                         (Some (JsError msg)))
            end
      ∧ (constructor uri database collection filtered dropFlag w).1
          ≠ Throw (MongoAdapterError "MongoDB URI is required." None).
Proof.
  split; [reflexivity|]. split; [reflexivity|].
  intros uri Huri. unfold constructor.
  rewrite bool_decide_eq_false_2 by done.
  unfold mbind, M_bind, try_catch, extern, throw, mret, M_ret.
  destruct (fault w (length (journal w))) as [msg|]; simpl.
  - split; [done|]. split; [done|]. split; [done|]. discriminate.
  - split; [done|]. split; [done|]. split; [done|]. discriminate.
Qed.

Lemma constructor_requires_uri_witness :
  (constructor "mongodb://localhost:27017" "casbin" "policies" false false
     world0).1 = Ok adapter0.
Proof.
  destruct (constructor_requires_uri "casbin" "policies" false false world0)
    as (_ & _ & H).
  destruct (H "mongodb://localhost:27017") as (_ & _ & Hok & _).
  - discriminate.
  - rewrite Hok. reflexivity.
Defined.

(** ** removePolicies *)

Lemma mapM_deletePolicyLine ptype rules w :
  mapM (deletePolicyLine ptype) rules w = (Ok (map (rule_line ptype) rules), w).
Proof.
  induction rules as [|rule rules IH]; [done|].
  cbn [mapM map]. erewrite bind_ok by apply convert_none.
  erewrite bind_ok by apply IH. done.
Qed.

Lemma Promise_all_pending (lines : list document) :
  Promise_all (map (λ l, (l, Pending)) lines)
  = match lines with [] => Fulfilled tt | _ => Pending end.
Proof.
  unfold Promise_all.
  assert (List.find (λ p : document * promise unit, is_rejected p.2)
            (map (λ l, (l, Pending)) lines) = None) as ->.
  { induction lines as [|l lines IH]; [done|]. exact IH. }
  by destruct lines.
Qed.

Lemma issue_healthy this lines : ∀ ps w,
  healthy w →
  ∃ w', issue this lines ps w
        = (Flight (ps ++ map (λ l, (l, Pending)) lines)
             (Promise_all (ps ++ map (λ l, (l, Pending)) lines)), w')
    ∧ healthy w' ∧ store w' = store w.
Proof.
  induction lines as [|line lines IH]; intros ps w H.
  - exists w. simpl. by rewrite app_nil_r.
  - cbn [issue]. rewrite getCollection_healthy by done.
    destruct (IH (ps ++ [(line, Pending)])
                (record (DbCollection (collectionName this))
                   (record (ClientDb (databaseName this)) w)))
      as (w' & Hrun & H' & Hs); [auto with healthy|].
    exists w'. rewrite Hrun. cbn [map]. rewrite <- !app_assoc. done.
Qed.

Lemma removePolicies_healthy this sec ptype rules w :
  healthy w →
  ∃ w', removePolicies this sec ptype rules w
        = (Flight (map (λ rule, (rule_line ptype rule, Pending)) rules)
             (match rules with [] => Fulfilled tt | _ => Pending end), w')
    ∧ healthy w' ∧ store w' = store w.
Proof.
  intros H. unfold removePolicies. rewrite mapM_deletePolicyLine.
  destruct (issue_healthy this (map (rule_line ptype) rules) [] w H)
    as (w' & Hrun & H' & Hs).
  exists w'. rewrite Hrun. cbn [app]. rewrite Promise_all_pending.
  rewrite map_map. split; [|done]. by destruct rules.
Qed.

(** The three ways a step of the schedule goes. *)
Lemma settle_ok this i f w line :
  promises f !! i = Some (line, Pending) →
  fault w (length (journal w)) = None →
  settle this i f w =
    (Flight (<[i := (line, Fulfilled tt)]> (promises f))
       (match result f with
        | Pending =>
            if forallb (λ p, is_fulfilled p.2)
                 (<[i := (line, Fulfilled tt)]> (promises f))
            then Fulfilled tt else Pending
        | r => r
        end),
     record (DeleteOne (collectionName this) line)
       (with_store
          (alter_docs (Mongo.deleteOne line) (namespace this) (store w)) w)).
Proof. intros Hi Hf. unfold settle, extern. by rewrite Hi, Hf. Qed.

Lemma settle_fail this i f w line msg :
  promises f !! i = Some (line, Pending) →
  fault w (length (journal w)) = Some msg →
  settle this i f w =
    (Flight (<[i := (line, Rejected (JsError msg))]> (promises f))
       (match result f with
        | Pending => Rejected (JsError msg)
        | r => r
        end),
     record (DeleteOne (collectionName this) line) w).
Proof. intros Hi Hf. unfold settle, extern. by rewrite Hi, Hf. Qed.

Lemma settle_idle this i f w :
  (∀ line, promises f !! i ≠ Some (line, Pending)) →
  settle this i f w = (f, w).
Proof.
  intros Hi. unfold settle.
  destruct (promises f !! i) as [[line [| |]]|] eqn:E; try done.
  by destruct (Hi line).
Qed.

(** What a step can be: idle, a success or a failure. *)
Lemma settle_cases this i f w :
  ((∀ line, promises f !! i ≠ Some (line, Pending))
   ∧ settle this i f w = (f, w))
  ∨ (∃ line, promises f !! i = Some (line, Pending)
       ∧ fault w (length (journal w)) = None
       ∧ settle this i f w =
           (Flight (<[i := (line, Fulfilled tt)]> (promises f))
              (match result f with
               | Pending =>
                   if forallb (λ p, is_fulfilled p.2)
                        (<[i := (line, Fulfilled tt)]> (promises f))
                   then Fulfilled tt else Pending
               | r => r
               end),
            record (DeleteOne (collectionName this) line)
              (with_store
                 (alter_docs (Mongo.deleteOne line) (namespace this) (store w))
                 w)))
  ∨ (∃ line msg, promises f !! i = Some (line, Pending)
       ∧ fault w (length (journal w)) = Some msg
       ∧ settle this i f w =
           (Flight (<[i := (line, Rejected (JsError msg))]> (promises f))
              (match result f with
               | Pending => Rejected (JsError msg)
               | r => r
               end),
            record (DeleteOne (collectionName this) line) w)).
Proof.
  destruct (promises f !! i) as [[line [| |]]|] eqn:E.
  - destruct (fault w (length (journal w))) as [msg|] eqn:Hf.
    + right. right. exists line, msg. by rewrite (settle_fail _ _ _ _ line msg).
    + right. left. exists line. by rewrite (settle_ok _ _ _ _ line).
  - left. split; [congruence|]. apply settle_idle. congruence.
  - left. split; [congruence|]. apply settle_idle. congruence.
  - left. split; [congruence|]. apply settle_idle. congruence.
Qed.

Lemma forallb_Forall {A} (f : A → bool) (l : list A) :
  forallb f l = true ↔ Forall (λ x, f x = true) l.
Proof.
  induction l as [|x l IH]; simpl.
  - split; [constructor|done].
  - rewrite andb_true_iff, IH. split.
    + intros [? ?]. by constructor.
    + intros H. by inversion H.
Qed.

Lemma pending_not_fulfilled (ps : list (document * promise unit)) i line :
  ps !! i = Some (line, Pending) →
  Forall (λ p, is_fulfilled p.2 = true) ps → False.
Proof.
  intros Hi H. rewrite Forall_lookup in H. by specialize (H i _ Hi).
Qed.

Lemma Exists_insert_inv {A} (P : A → Prop) (l : list A) i x :
  Exists P (<[i := x]> l) → P x ∨ Exists P l.
Proof.
  revert i. induction l as [|y l IH]; intros i H; [by right|].
  destruct i as [|i]; simpl in H.
  - inversion H; subst; [by left|]. right. by constructor 2.
  - inversion H; subst; [right; by constructor|].
    destruct (IH i) as [?|?]; [done|by left|]. right. by constructor 2.
Qed.

Lemma settle_consistent this i f w :
  consistent f → consistent (settle this i f w).1.
Proof.
  intros [Hful Hrej].
  destruct (settle_cases this i f w)
    as [[_ ->]|[(line & Hi & _ & ->)|(line & msg & Hi & _ & ->)]];
    [done| |]; cbn [fst promises result]; split.
  - destruct (result f) as [|[]|e] eqn:Hr; cbn [is_fulfilled].
    + destruct (forallb _ _) eqn:Hall; [|done]. intros _.
      by apply forallb_Forall.
    + intros _. destruct (pending_not_fulfilled _ _ _ Hi). by apply Hful.
    + done.
  - intros Hex. apply Exists_insert_inv in Hex as [?|Hex]; [done|].
    specialize (Hrej Hex). by destruct (result f).
  - destruct (result f) as [|[]|e] eqn:Hr; cbn [is_fulfilled]; try done.
    intros _. destruct (pending_not_fulfilled _ _ _ Hi). by apply Hful.
  - intros _. destruct (result f) as [|[]|e] eqn:Hr; try done.
    destruct (pending_not_fulfilled _ _ _ Hi). by apply Hful.
Qed.

Lemma run_consistent this schedule : ∀ fw,
  consistent fw.1 → consistent (run this schedule fw).1.
Proof.
  induction schedule as [|i schedule IH]; intros fw H; [done|].
  cbn [run foldl]. apply IH. by apply settle_consistent.
Qed.

Lemma settle_filters this i f w :
  map fst (promises (settle this i f w).1) = map fst (promises f).
Proof.
  destruct (settle_cases this i f w)
    as [[_ ->]|[(line & Hi & _ & ->)|(line & msg & Hi & _ & ->)]];
    [done| |]; cbn [fst promises];
    rewrite list_fmap_insert; cbn [fst]; apply list_insert_id;
    by rewrite list_lookup_fmap, Hi.
Qed.

Lemma run_filters this schedule : ∀ fw,
  map fst (promises (run this schedule fw).1) = map fst (promises fw.1).
Proof.
  induction schedule as [|i schedule IH]; intros fw; [done|].
  cbn [run foldl]. etrans; [apply IH|]. apply settle_filters.
Qed.

Lemma settle_on_track this i f w :
  healthy w → on_track f →
  healthy (settle this i f w).2 ∧ on_track (settle this i f w).1.
Proof.
  intros H [Hnone Hres].
  destruct (settle_cases this i f w)
    as [[_ ->]|[(line & Hi & _ & ->)|(line & msg & _ & Hf & _)]];
    [done| |by rewrite H in Hf].
  cbn [fst snd]. split; [auto with healthy|]. split; cbn [promises result].
  - by apply Forall_insert.
  - destruct (forallb (λ p, is_fulfilled p.2) (promises f)) eqn:Hall.
    + apply forallb_Forall in Hall.
      by destruct (pending_not_fulfilled _ _ _ Hi).
    + by rewrite Hres.
Qed.

Lemma run_on_track this schedule : ∀ fw,
  healthy fw.2 → on_track fw.1 →
  healthy (run this schedule fw).2 ∧ on_track (run this schedule fw).1.
Proof.
  induction schedule as [|i schedule IH]; intros fw H Ht; [done|].
  cbn [run foldl].
  destruct (settle_on_track this i fw.1 fw.2 H Ht) as [H' Ht'].
  by apply IH.
Qed.

Lemma settle_settled_stable this j f w i line p :
  promises f !! i = Some (line, p) → is_pending p = false →
  promises (settle this j f w).1 !! i = Some (line, p).
Proof.
  intros Hi Hp.
  destruct (settle_cases this j f w)
    as [[_ ->]|[(line' & Hj & _ & ->)|(line' & msg & Hj & _ & ->)]];
    [done| |]; cbn [fst promises];
    (rewrite list_lookup_insert_ne; [done|]; intros ->;
     rewrite Hi in Hj; injection Hj as -> ->; done).
Qed.

Lemma settle_settles this i f w :
  i < length (promises f) →
  ∃ line p, promises (settle this i f w).1 !! i = Some (line, p)
            ∧ is_pending p = false.
Proof.
  intros Hlt.
  destruct (settle_cases this i f w)
    as [[Hnp ->]|[(line & Hi & _ & ->)|(line & msg & Hi & _ & ->)]].
  - cbn [fst].
    destruct (lookup_lt_is_Some_2 _ _ Hlt) as [[line p] Hi].
    exists line, p. split; [done|].
    destruct p; try done. by destruct (Hnp line).
  - exists line, (Fulfilled tt). cbn [fst promises].
    by rewrite list_lookup_insert_eq.
  - exists line, (Rejected (JsError msg)). cbn [fst promises].
    by rewrite list_lookup_insert_eq.
Qed.

Lemma settle_length this i f w :
  length (promises (settle this i f w).1) = length (promises f).
Proof.
  rewrite <- (length_map fst), settle_filters. apply length_map.
Qed.

Lemma run_settled_stable this schedule : ∀ fw i line p,
  promises fw.1 !! i = Some (line, p) → is_pending p = false →
  promises (run this schedule fw).1 !! i = Some (line, p).
Proof.
  induction schedule as [|j schedule IH]; intros fw i line p Hi Hp; [done|].
  cbn [run foldl]. apply IH; [|done]. by apply settle_settled_stable.
Qed.

Lemma run_covers this schedule : ∀ fw i,
  i ∈ schedule → i < length (promises fw.1) →
  ∃ line p, promises (run this schedule fw).1 !! i = Some (line, p)
            ∧ is_pending p = false.
Proof.
  induction schedule as [|j schedule IH]; intros fw i Hin Hlt.
  - by apply elem_of_nil in Hin.
  - cbn [run foldl]. apply elem_of_cons in Hin as [->|Hin].
    + destruct (settle_settles this j fw.1 fw.2 Hlt) as (line & p & Hj & Hp).
      exists line, p. split; [|done]. by apply run_settled_stable.
    + apply IH; [done|]. cbn [fst]. by rewrite settle_length.
Qed.

Lemma settle_other this j f w i :
  i ≠ j → promises (settle this j f w).1 !! i = promises f !! i.
Proof.
  intros Hne.
  destruct (settle_cases this j f w)
    as [[_ ->]|[(line & Hi & _ & ->)|(line & msg & Hi & _ & ->)]];
    [done| |]; cbn [fst promises]; by rewrite list_lookup_insert_ne.
Qed.

Lemma run_untouched this schedule : ∀ fw i,
  i ∉ schedule → promises (run this schedule fw).1 !! i = promises fw.1 !! i.
Proof.
  induction schedule as [|j schedule IH]; intros fw i Hi; [done|].
  apply not_elem_of_cons in Hi as [Hne Hi].
  change (run this (j :: schedule) fw)
    with (run this schedule (settle this j fw.1 fw.2)).
  rewrite IH by done. by apply settle_other.
Qed.

Lemma issue_consistent this lines : ∀ ps w,
  Forall (λ p, p.2 = Pending) ps → consistent (issue this lines ps w).1.
Proof.
  assert (∀ ps : list (document * promise unit),
            Forall (λ p, p.2 = Pending) ps →
            ¬ Exists (λ p, is_rejected p.2 = true) ps) as Hno.
  { intros ps Hps Hex. apply Exists_exists in Hex as (p & Hin & Hr).
    rewrite Forall_forall in Hps. specialize (Hps p Hin).
    by rewrite Hps in Hr. }
  induction lines as [|line lines IH]; intros ps w Hps.
  - cbn [issue fst]. split; cbn [promises result].
    + unfold Promise_all.
      destruct (List.find _ ps) as [[l [| |e]]|]; cbn [is_fulfilled]; try done;
        (destruct (forallb _ ps) eqn:Hall; [|done]; intros _;
         by apply forallb_Forall).
    + intros Hex. by destruct (Hno ps Hps).
  - cbn [issue]. destruct (getCollection this w) as [[c|e] w'].
    + apply IH. apply Forall_app. split; [done|]. by constructor.
    + cbn [fst]. split; cbn [promises result]; [done|].
      intros Hex. by destruct (Hno ps Hps).
Qed.

Lemma removePolicies_consistent this sec ptype rules w :
  consistent (removePolicies this sec ptype rules w).1.
Proof.
  unfold removePolicies. rewrite mapM_deletePolicyLine.
  apply issue_consistent. constructor.
Qed.

(** C8, as stated, fails where it says the call completes only once every
    deletion has settled: [Promise.all] rejects with the first rejection.
    With two rules, when the deletion of the first fails, the call has
    failed while the deletion of the second is still pending; that deletion
    is made afterwards all the same. *)
Lemma removePolicies_rejects_early :
  let rules := [["liam"; "data13"; "read"]; ["mia"; "data14"; "write"]] in
  let start := removePolicies adapter0 "p" "p" rules world_fault_at_4 in
  let first := run adapter0 [0] start in
  let later := run adapter0 [0; 1] start in
  result first.1 = Rejected (JsError "connection reset")
  ∧ promises first.1 !! 1
    = Some (rule_line "p" ["mia"; "data14"; "write"], Pending)
  ∧ ¬ Forall (λ p, is_pending p.2 = false) (promises first.1)
  ∧ documents adapter0 later.2 = [inserted 900 "p" ["liam"; "data13"; "read"]].
Proof.
  intros rules start first later.
  assert (promises first.1 !! 1
          = Some (rule_line "p" ["mia"; "data14"; "write"], Pending)) as H1
    by (vm_compute; reflexivity).
  split; [vm_compute; reflexivity|].
  split; [exact H1|].
  split; [|vm_compute; reflexivity].
  intros H. rewrite Forall_lookup in H. by specialize (H 1 _ H1).
Qed.

(** C8, amended.  [removePolicies] issues one [deleteOne] per rule, with
    the rule's key document, and awaits them together.  The deletions may
    settle in any order (the schedule is arbitrary): the filters never
    change, the call is fulfilled only when every deletion is fulfilled, and
    it is rejected as soon as one deletion is rejected, without waiting for
    the deletions still pending.  Without failures the call stays pending
    while a deletion has not settled and is fulfilled once all have.  The
    batch is not atomic: a deletion that fails leaves the store as the
    earlier deletions made it, and one that succeeds removes its
    document. *)
Theorem removePolicies_batch this sec ptype rules schedule w :
  let start := removePolicies this sec ptype rules w in
  let final := run this schedule start in
  (healthy w →
   promises start.1 = map (λ rule, (rule_line ptype rule, Pending)) rules
   ∧ store start.2 = store w)
  ∧ map fst (promises final.1) = map fst (promises start.1)
  ∧ (is_fulfilled (result final.1) = true →
     Forall (λ p, is_fulfilled p.2 = true) (promises final.1))
  ∧ (Exists (λ p, is_rejected p.2 = true) (promises final.1) →
     is_rejected (result final.1) = true)
  ∧ (healthy w → (∀ i, i < length rules → i ∈ schedule) →
     result final.1 = Fulfilled tt
     ∧ Forall (λ p, is_fulfilled p.2 = true) (promises final.1))
  ∧ (healthy w → (∃ i, i < length rules ∧ i ∉ schedule) →
     result final.1 = Pending)
  ∧ (∀ i line msg,
       promises final.1 !! i = Some (line, Pending) →
       fault final.2 (length (journal final.2)) = Some msg →
       store (settle this i final.1 final.2).2 = store final.2
       ∧ is_rejected (result (settle this i final.1 final.2).1) = true)
  ∧ (∀ i line,
       promises final.1 !! i = Some (line, Pending) →
       fault final.2 (length (journal final.2)) = None →
       documents this (settle this i final.1 final.2).2
       = Mongo.deleteOne line (documents this final.2)).
Proof.
  intros start final.
  pose proof (removePolicies_consistent this sec ptype rules w) as Hc0.
  fold start in Hc0.
  pose proof (run_consistent this schedule start Hc0) as Hc. fold final in Hc.
  assert (healthy w →
          promises start.1 = map (λ rule, (rule_line ptype rule, Pending)) rules
          ∧ store start.2 = store w
          ∧ healthy final.2 ∧ on_track final.1) as Hh.
  { intros H.
    destruct (removePolicies_healthy this sec ptype rules w H)
      as (w' & Hrun & H' & Hs).
    assert (on_track start.1) as Ht.
    { unfold start. rewrite Hrun. split; cbn [fst promises result].
      - apply Forall_forall. intros p Hp.
        apply list_elem_of_fmap in Hp as (rule & -> & _). done.
      - by destruct rules. }
    unfold start at 1 2. rewrite Hrun. split; [done|]. split; [done|].
    apply run_on_track; [|done]. unfold start. by rewrite Hrun. }
  assert (healthy w → length (promises final.1) = length rules) as Hlen.
  { intros H. destruct (Hh H) as (Hp & _).
    rewrite <- (length_map fst). unfold final. rewrite run_filters.
    by rewrite Hp, !length_map. }
  split; [intros H; by destruct (Hh H) as (? & ? & _)|].
  split; [apply run_filters|].
  split; [apply Hc|]. split; [apply Hc|].
  split.
  { intros H Hcover. destruct (Hh H) as (Hp & _ & _ & Hnone & Hres).
    assert (Forall (λ p, is_fulfilled p.2 = true) (promises final.1)) as Hall.
    { apply Forall_lookup. intros i [line p] Hi.
      assert (i < length rules) as Hlt.
      { rewrite <- Hlen by done. by apply lookup_lt_Some in Hi. }
      destruct (run_covers this schedule start i (Hcover i Hlt))
        as (line' & p' & Hi' & Hp').
      { by rewrite Hp, length_map. }
      fold final in Hi'. rewrite Hi in Hi'. injection Hi' as <- <-.
      rewrite Forall_lookup in Hnone. specialize (Hnone i _ Hi).
      by destruct p. }
    split; [|done]. rewrite Hres.
    by rewrite (proj2 (forallb_Forall _ _) Hall). }
  split.
  { intros H (i & Hlt & Hnot). destruct (Hh H) as (Hp & _ & _ & _ & Hres).
    rewrite Hres.
    destruct (forallb (λ p, is_fulfilled p.2) (promises final.1)) eqn:Hall;
      [|done].
    apply forallb_Forall in Hall.
    destruct (lookup_lt_is_Some_2 rules i Hlt) as [rule Hrule].
    assert (promises final.1 !! i = Some (rule_line ptype rule, Pending)) as Hi.
    { unfold final. rewrite run_untouched by done.
      by rewrite Hp, list_lookup_fmap, Hrule. }
    by destruct (pending_not_fulfilled _ _ _ Hi). }
  split.
  { intros i line msg Hi Hf. rewrite (settle_fail _ _ _ _ line msg) by done.
    cbn [fst snd result]. split; [done|].
    destruct (result final.1) as [|[]|e] eqn:Hr; try done.
    destruct (pending_not_fulfilled _ _ _ Hi).
    apply (proj1 Hc). by rewrite Hr. }
  intros i line Hi Hf. rewrite (settle_ok _ _ _ _ line) by done.
  unfold documents. cbn [snd]. simpl. by apply docs_of_alter_docs.
Qed.

(** The two rules of the tests, deleted in the order opposite to the one
    they were given in. *)
Lemma removePolicies_batch_witness :
  let rules := [["liam"; "data13"; "read"]; ["mia"; "data14"; "write"]] in
  let w := with_store
             {[ namespace adapter0 :=
                  Collection [inserted 900 "p" ["liam"; "data13"; "read"];
                              inserted 901 "p" ["mia"; "data14"; "write"]]
                    [] ]}
             world0 in
  let final := run adapter0 [1; 0] (removePolicies adapter0 "p" "p" rules w) in
  result final.1 = Fulfilled tt ∧ documents adapter0 final.2 = [].
Proof.
  intros rules w final.
  assert (healthy w) as Hw by (intros n; reflexivity).
  destruct (removePolicies_batch adapter0 "p" "p" rules [1; 0] w)
    as (_ & _ & _ & _ & Hall & _).
  destruct (Hall Hw) as [Hres _].
  - intros i Hi. cbn [length rules] in Hi.
    destruct i as [|[|i]]; [by right; left|by left|lia].
  - split; [exact Hres|]. vm_compute. reflexivity.
Defined.

(** * Further properties of the adapter *)

(** ** addPolicy, addPolicies *)

Lemma addPolicy_healthy this sec ptype rule w :
  healthy w →
  let line := inserted (clock w (ticks w)) ptype rule in
  addPolicy this sec ptype rule w =
    (Ok tt,
     record (InsertOne (collectionName this) line)
       (with_store
          (upsert_docs (Mongo.insertOne line) (namespace this) (store w))
          (record (DbCollection (collectionName this))
             (record (ClientDb (databaseName this)) (tick w))))).
Proof.
  intros H line. unfold addPolicy.
  erewrite bind_ok by apply convert_both.
  erewrite bind_ok by (apply getCollection_healthy; auto with healthy).
  rewrite extern_healthy by auto with healthy. reflexivity.
Qed.

Lemma upsert_docs_other f n s n' :
  n ≠ n' → upsert_docs f n s !! n' = s !! n'.
Proof. intros Hne. unfold upsert_docs. by rewrite lookup_insert_ne. Qed.

Lemma indexes_of_upsert_docs f n s :
  indexes_of (upsert_docs f n s) n = indexes_of s n.
Proof. unfold upsert_docs, indexes_of at 1. by rewrite lookup_insert_eq. Qed.

(** X1.  In a run without failures [addPolicy] makes one [insertOne] call
    and the collection holds, after the documents it held, one more
    document: the rule's, with [createdAt] and [updatedAt] both set to the
    one clock reading taken.  The indexes of the collection and the other
    collections of the store are as before. *)
Theorem addPolicy_appends this sec ptype rule w :
  healthy w →
  let now := clock w (ticks w) in
  ∃ w', addPolicy this sec ptype rule w = (Ok tt, w')
    ∧ healthy w'
    ∧ journal w' =
        journal w ++ [ClientDb (databaseName this);
                      DbCollection (collectionName this);
                      InsertOne (collectionName this) (inserted now ptype rule)]
    ∧ documents this w' = documents this w ++ [inserted now ptype rule]
    ∧ inserted now ptype rule !! k_createdAt = Some (VDate now)
    ∧ inserted now ptype rule !! k_updatedAt = Some (VDate now)
    ∧ indexes_of (store w') (namespace this)
      = indexes_of (store w) (namespace this)
    ∧ (∀ n, namespace this ≠ n → store w' !! n = store w !! n)
    ∧ ticks w' = S (ticks w) ∧ clock w' = clock w.
Proof.
  intros H now. eexists. split; [by apply addPolicy_healthy|].
  split; [auto 10 with healthy|].
  split; [simpl; by rewrite <- !app_assoc|].
  split; [unfold documents; simpl; by rewrite docs_of_upsert_docs|].
  split; [apply inserted_stamps|]. split; [apply inserted_stamps|].
  split; [simpl; apply indexes_of_upsert_docs|].
  split; [intros n Hn; simpl; by apply upsert_docs_other|done].
Qed.

Lemma addPolicy_appends_witness :
  ∃ w', addPolicy adapter0 "p" "p" ["alice"; "data1"; "read"] world0
        = (Ok tt, w')
    ∧ documents adapter0 w' = [inserted 1000 "p" ["alice"; "data1"; "read"]].
Proof.
  destruct (addPolicy_appends adapter0 "p" "p" ["alice"; "data1"; "read"]
              world0 healthy_world0) as (w' & Hrun & _ & _ & Hdocs & _).
  exists w'. split; [exact Hrun|]. rewrite Hdocs. reflexivity.
Defined.

Lemma addPolicies_healthy this sec ptype rules w :
  healthy w →
  let lines := stamp_all (clock w) (ticks w) (map (pair ptype) rules) in
  addPolicies this sec ptype rules w =
    (Ok tt,
     record (InsertMany (collectionName this) lines)
       (with_store
          (upsert_docs (Mongo.insertMany lines) (namespace this) (store w))
          (record (DbCollection (collectionName this))
             (record (ClientDb (databaseName this))
                (advance (length rules) w))))).
Proof.
  intros H lines. unfold addPolicies.
  erewrite bind_ok by apply mapM_savePolicyLine.
  erewrite bind_ok by (apply getCollection_healthy; auto with healthy).
  rewrite extern_healthy by auto with healthy. simpl.
  by rewrite store_advance.
Qed.

Lemma mapM_addPolicy_healthy this sec ptype rules : ∀ w,
  healthy w →
  ∃ units w', mapM (addPolicy this sec ptype) rules w = (Ok units, w')
    ∧ healthy w' ∧ clock w' = clock w ∧ ticks w' = length rules + ticks w
    ∧ documents this w'
      = documents this w
        ++ stamp_all (clock w) (ticks w) (map (pair ptype) rules).
Proof.
  induction rules as [|rule rules IH]; intros w H.
  - exists [], w. unfold stamp_all. simpl. by rewrite app_nil_r.
  - set (w1 := record (InsertOne (collectionName this)
                         (inserted (clock w (ticks w)) ptype rule))
                 (with_store
                    (upsert_docs
                       (Mongo.insertOne
                          (inserted (clock w (ticks w)) ptype rule))
                       (namespace this) (store w))
                    (record (DbCollection (collectionName this))
                       (record (ClientDb (databaseName this)) (tick w))))).
    destruct (IH w1) as (units & w' & Hrun & H' & Hc & Ht & Hd).
    { unfold w1. auto 10 with healthy. }
    exists (tt :: units), w'. split.
    { cbn [mapM]. erewrite bind_ok by (by apply addPolicy_healthy).
      fold w1. erewrite bind_ok by apply Hrun. done. }
    split; [done|]. split; [done|].
    split; [rewrite Ht; simpl; lia|].
    rewrite Hd. unfold documents at 1. unfold w1 at 1. simpl.
    rewrite docs_of_upsert_docs. unfold Mongo.insertOne.
    rewrite <- app_assoc. f_equal.
    change ((ptype, rule) :: map (pair ptype) rules)
      with ([(ptype, rule)] ++ map (pair ptype) rules).
    rewrite stamp_all_app. simpl. f_equal.
    unfold inserted. by rewrite Nat.add_0_r.
Qed.

(** X2.  In a run without failures [addPolicies], given at least one rule,
    makes one [insertMany] call; the collection then holds, after the
    documents it held, one document per rule in the order given, the i-th
    stamped (both timestamps) with the i-th clock reading of the call.  The
    documents are those that adding the rules one by one with [addPolicy]
    leaves. *)
Theorem addPolicies_appends this sec ptype rules w :
  healthy w → rules ≠ [] →
  let lines := stamp_all (clock w) (ticks w) (map (pair ptype) rules) in
  ∃ w', addPolicies this sec ptype rules w = (Ok tt, w')
    ∧ journal w' =
        journal w ++ [ClientDb (databaseName this);
                      DbCollection (collectionName this);
                      InsertMany (collectionName this) lines]
    ∧ documents this w' = documents this w ++ lines
    ∧ length lines = length rules
    ∧ (∀ i rule, rules !! i = Some rule →
         lines !! i = Some (inserted (clock w (ticks w + i)) ptype rule))
    ∧ ∃ units w1, mapM (addPolicy this sec ptype) rules w = (Ok units, w1)
        ∧ documents this w1 = documents this w'.
Proof.
  intros H _ lines.
  set (W := record (InsertMany (collectionName this) lines)
              (with_store
                 (upsert_docs (Mongo.insertMany lines) (namespace this)
                    (store w))
                 (record (DbCollection (collectionName this))
                    (record (ClientDb (databaseName this))
                       (advance (length rules) w))))).
  exists W. split; [by apply addPolicies_healthy|].
  split; [simpl; by rewrite journal_advance, <- !app_assoc|].
  assert (documents this W = documents this w ++ lines) as Hd.
  { unfold documents. simpl. by rewrite docs_of_upsert_docs. }
  split; [exact Hd|].
  split; [unfold lines; by rewrite stamp_all_length, length_map|].
  split.
  { intros i rule Hi. apply stamp_all_lookup.
    by rewrite list_lookup_fmap, Hi. }
  destruct (mapM_addPolicy_healthy this sec ptype rules w H)
    as (units & w1 & Hrun & _ & _ & _ & Hd1).
  exists units, w1. split; [exact Hrun|]. by rewrite Hd, Hd1.
Qed.

Lemma addPolicies_appends_witness :
  ∃ w', addPolicies adapter0 "p" "p"
          [["jack"; "data11"; "read"]; ["kate"; "data12"; "write"]] world0
        = (Ok tt, w')
    ∧ documents adapter0 w' =
        [inserted 1000 "p" ["jack"; "data11"; "read"];
         inserted 1001 "p" ["kate"; "data12"; "write"]].
Proof.
  destruct (addPolicies_appends adapter0 "p" "p"
              [["jack"; "data11"; "read"]; ["kate"; "data12"; "write"]]
              world0 healthy_world0)
    as (w' & Hrun & _ & Hdocs & _); [discriminate|].
  exists w'. split; [exact Hrun|]. rewrite Hdocs. reflexivity.
Defined.

(** ** removePolicy *)

Lemma deleteOne_first q pre d post :
  Forall (λ x, Mongo.matches q x = false) pre →
  Mongo.matches q d = true →
  Mongo.deleteOne q (pre ++ d :: post) = pre ++ post.
Proof.
  intros Hpre Hd. induction Hpre as [|x pre Hx _ IH]; simpl.
  - by rewrite Hd.
  - by rewrite Hx, IH.
Qed.

Lemma deleteOne_no_match q ds :
  Forall (λ x, Mongo.matches q x = false) ds → Mongo.deleteOne q ds = ds.
Proof.
  induction 1 as [|x ds Hx _ IH]; simpl; [done|]. by rewrite Hx, IH.
Qed.

Lemma deleteOne_length q ds :
  length (Mongo.deleteOne q ds)
  = length ds - (if existsb (Mongo.matches q) ds then 1 else 0).
Proof.
  induction ds as [|d ds IH]; [done|]. simpl.
  destruct (Mongo.matches q d); simpl; [lia|].
  rewrite IH. destruct (existsb (Mongo.matches q) ds) eqn:E; [|lia].
  destruct ds; [done|]. simpl. lia.
Qed.

Lemma removePolicy_healthy this sec ptype rule w :
  healthy w →
  let line := rule_line ptype rule in
  removePolicy this sec ptype rule w =
    (Ok tt,
     record (DeleteOne (collectionName this) line)
       (with_store
          (alter_docs (Mongo.deleteOne line) (namespace this) (store w))
          (record (DbCollection (collectionName this))
             (record (ClientDb (databaseName this)) w)))).
Proof.
  intros H line. unfold removePolicy.
  erewrite bind_ok by apply convert_none.
  erewrite bind_ok by (apply getCollection_healthy; auto with healthy).
  rewrite extern_healthy by auto with healthy. reflexivity.
Qed.

(** X3.  In a run without failures [removePolicy] makes one [deleteOne]
    call with the rule's key document.  It removes the first document that
    matches and no other, so one document at most, also when several match;
    when none matches the store is unchanged.  The clock is not read. *)
Theorem removePolicy_removes_first this sec ptype rule w :
  healthy w →
  let line := rule_line ptype rule in
  ∃ w', removePolicy this sec ptype rule w = (Ok tt, w')
    ∧ journal w' =
        journal w ++ [ClientDb (databaseName this);
                      DbCollection (collectionName this);
                      DeleteOne (collectionName this) line]
    ∧ ticks w' = ticks w
    ∧ (∀ pre d post,
         documents this w = pre ++ d :: post →
         Forall (λ x, Mongo.matches line x = false) pre →
         Mongo.matches line d = true →
         documents this w' = pre ++ post)
    ∧ (Forall (λ x, Mongo.matches line x = false) (documents this w) →
       store w' = store w)
    ∧ length (documents this w')
      = length (documents this w)
        - (if existsb (Mongo.matches line) (documents this w) then 1 else 0).
Proof.
  intros H line. eexists. split; [by apply removePolicy_healthy|].
  split; [simpl; by rewrite <- !app_assoc|]. split; [done|].
  split.
  { intros pre d post Hdocs Hpre Hd. unfold documents in *. simpl.
    rewrite docs_of_alter_docs by done. rewrite Hdocs.
    by apply deleteOne_first. }
  split.
  { intros Hnone. simpl. apply alter_docs_same. by apply deleteOne_no_match. }
  unfold documents. simpl. rewrite docs_of_alter_docs by done.
  apply deleteOne_length.
Qed.

(** The rule was stored twice: one copy is left. *)
Lemma removePolicy_removes_first_witness :
  let d := inserted 900 "p" ["bob"; "data2"; "write"] in
  let w := with_store {[ namespace adapter0 := Collection [d; d] [] ]} world0 in
  ∃ w', removePolicy adapter0 "p" "p" ["bob"; "data2"; "write"] w = (Ok tt, w')
    ∧ documents adapter0 w' = [d].
Proof.
  intros d w.
  assert (healthy w) as Hw by (intros n; reflexivity).
  destruct (removePolicy_removes_first adapter0 "p" "p"
              ["bob"; "data2"; "write"] w Hw)
    as (w' & Hrun & _ & _ & Hfirst & _).
  exists w'. split; [exact Hrun|].
  apply (Hfirst [] d [d]); [reflexivity|constructor|].
  vm_compute. reflexivity.
Defined.

Lemma rule_line_matches ptype rule (d : document) :
  Mongo.matches (rule_line ptype rule) d = true
  ↔ d !! k_ptype = Some (VStr ptype)
    ∧ ∀ k s, k < 6 → rule !! k = Some s → d !! vkey k = Some (VStr s).
Proof.
  rewrite matches_spec. split.
  - intros H. split; [apply H, rule_line_ptype|].
    intros k s Hk Hs. apply H.
    by rewrite rule_line_field, decide_True, Hs.
  - intros [Hp Hv] key v Hkey.
    assert (is_Some (rule_line ptype rule !! key)) as Hs by (by eexists).
    apply rule_line_keys in Hs as [->|[k ->]].
    + rewrite rule_line_ptype in Hkey. congruence.
    + rewrite rule_line_field in Hkey. case_decide; [|done].
      destruct (rule !! k) as [s|] eqn:Hk; [|done].
      injection Hkey as <-. by apply Hv.
Qed.

(** X4.  The key document of a rule constrains the ptype and the fields
    the rule has (of index 0..5) and nothing else: it matches a stored
    document exactly when that document has this ptype and these values at
    [v0..], whatever further fields it holds.  So it matches the stored
    document of every rule that extends the given one, and [removePolicy]
    of a rule removes such a longer rule when that is the first match. *)
Theorem rule_key_matches_extensions this sec ptype rule :
  (∀ d : document,
     Mongo.matches (rule_line ptype rule) d = true
     ↔ d !! k_ptype = Some (VStr ptype)
       ∧ ∀ k s, k < 6 → rule !! k = Some s → d !! vkey k = Some (VStr s))
  ∧ (∀ more created updated,
       Mongo.matches (rule_line ptype rule)
         (stored created updated ptype (rule ++ more)) = true)
  ∧ (∀ more created updated w,
       healthy w →
       documents this w = [stored created updated ptype (rule ++ more)] →
       ∃ w', removePolicy this sec ptype rule w = (Ok tt, w')
             ∧ documents this w' = []).
Proof.
  split; [apply rule_line_matches|].
  assert (∀ more created updated,
            Mongo.matches (rule_line ptype rule)
              (stored created updated ptype (rule ++ more)) = true) as Hext.
  { intros more created updated. apply rule_line_matches. unfold stored. split.
    - by rewrite !lookup_insert_ne, rule_line_ptype.
    - intros k s Hk Hs.
      rewrite lookup_insert_ne by (apply not_eq_sym, vkey_not_updatedAt).
      rewrite lookup_insert_ne by (apply not_eq_sym, vkey_not_createdAt).
      rewrite rule_line_field, decide_True by done.
      by rewrite (lookup_app_l_Some _ _ _ _ Hs). }
  split; [exact Hext|].
  intros more created updated w H Hdocs. eexists.
  split; [by apply removePolicy_healthy|].
  unfold documents in *. simpl. rewrite docs_of_alter_docs by done.
  rewrite Hdocs. simpl. by rewrite Hext.
Qed.

Lemma rule_key_matches_extensions_witness :
  let w := with_store
             {[ namespace adapter0 :=
                  Collection [stored 900 950 "p" ["alice"; "data1"; "read"]]
                    [] ]} world0 in
  ∃ w', removePolicy adapter0 "p" "p" ["alice"] w = (Ok tt, w')
        ∧ documents adapter0 w' = [].
Proof.
  intros w.
  destruct (rule_key_matches_extensions adapter0 "p" "p" ["alice"])
    as (_ & _ & H).
  apply (H ["data1"; "read"] 900%Z 950%Z w).
  - intros n. reflexivity.
  - reflexivity.
Defined.

(** X5.  Adding a rule and then removing it leaves the documents of the
    collection as they were, provided no document stored before matches the
    rule's key (otherwise the removal takes the first of those). *)
Theorem addPolicy_removePolicy_round_trip this sec ptype rule w :
  healthy w →
  Forall (λ x, Mongo.matches (rule_line ptype rule) x = false)
         (documents this w) →
  ∃ w', (addPolicy this sec ptype rule;; removePolicy this sec ptype rule) w
        = (Ok tt, w')
    ∧ documents this w' = documents this w.
Proof.
  intros H Hnone.
  set (w1 := record (InsertOne (collectionName this)
                       (inserted (clock w (ticks w)) ptype rule))
               (with_store
                  (upsert_docs
                     (Mongo.insertOne (inserted (clock w (ticks w)) ptype rule))
                     (namespace this) (store w))
                  (record (DbCollection (collectionName this))
                     (record (ClientDb (databaseName this)) (tick w))))).
  assert (healthy w1) as H1 by (unfold w1; auto 10 with healthy).
  eexists. split.
  { erewrite bind_ok by (by apply addPolicy_healthy).
    fold w1. by apply removePolicy_healthy. }
  unfold documents in *. simpl. rewrite docs_of_alter_docs by done.
  rewrite docs_of_upsert_docs. unfold Mongo.insertOne.
  rewrite (deleteOne_first _ _ _ []) by (done || apply inserted_matches).
  by rewrite app_nil_r.
Qed.

Lemma addPolicy_removePolicy_round_trip_witness :
  ∃ w', (addPolicy adapter0 "p" "p" ["bob"; "data2"; "write"];;
         removePolicy adapter0 "p" "p" ["bob"; "data2"; "write"]) world0
        = (Ok tt, w')
    ∧ documents adapter0 w' = [].
Proof.
  apply (addPolicy_removePolicy_round_trip adapter0 "p" "p"
           ["bob"; "data2"; "write"] world0 healthy_world0).
  constructor.
Defined.

(** ** updatePolicy, further *)

Lemma stored_same now ptype rule :
  stored now now ptype rule = inserted now ptype rule.
Proof. reflexivity. Qed.

Lemma update_stored ptype oldRule newRule created updated now :
  Mongo.apply_update
    (updateOperation (rule_line ptype oldRule)
       (<[k_updatedAt := VDate now]> (rule_line ptype newRule)))
    (stored created updated ptype oldRule)
  = stored created now ptype newRule.
Proof.
  apply map_eq. intros key. rewrite apply_update_lookup. simpl.
  rewrite unset_of_lookup. unfold stored.
  destruct (decide (key = k_updatedAt)) as [->|Hu].
  { rewrite decide_False by tauto. by rewrite !lookup_insert_eq. }
  destruct (decide (key = k_createdAt)) as [->|Hc].
  { rewrite decide_False by tauto.
    rewrite !(lookup_insert_ne _ k_updatedAt) by done.
    by rewrite rule_line_createdAt, !lookup_insert_eq. }
  rewrite !(lookup_insert_ne _ k_updatedAt) by done.
  rewrite !(lookup_insert_ne _ k_createdAt) by done.
  destruct (rule_line ptype newRule !! key) as [v|] eqn:Hnew.
  - rewrite decide_False; [done|]. intros (_ & ? & _). done.
  - destruct (rule_line ptype oldRule !! key) as [v|] eqn:Hold.
    + rewrite decide_True; [done|]. split; [by eexists|done].
    + rewrite decide_False; [done|]. by intros ([? ?] & _).
Qed.

(** X6.  Applied to the stored document of the old rule, the update of
    [updatePolicy] gives exactly the document of the new rule with the
    [createdAt] the document had and the clock reading of the update as
    [updatedAt]: the new fields and nothing left of the old ones.  Updating
    back to the old rule restores the document, up to [updatedAt].  In a
    run without failures, adding a rule no stored document matches and
    updating it leaves that document last in the collection. *)
Theorem updatePolicy_replaces_rule this sec ptype oldRule newRule :
  (∀ created updated now,
     Mongo.apply_update
       (updateOperation (rule_line ptype oldRule)
          (<[k_updatedAt := VDate now]> (rule_line ptype newRule)))
       (stored created updated ptype oldRule)
     = stored created now ptype newRule)
  ∧ (∀ created updated now later,
       Mongo.apply_update
         (updateOperation (rule_line ptype newRule)
            (<[k_updatedAt := VDate later]> (rule_line ptype oldRule)))
         (Mongo.apply_update
            (updateOperation (rule_line ptype oldRule)
               (<[k_updatedAt := VDate now]> (rule_line ptype newRule)))
            (stored created updated ptype oldRule))
       = stored created later ptype oldRule)
  ∧ (∀ w,
       healthy w →
       Forall (λ x, Mongo.matches (rule_line ptype oldRule) x = false)
              (documents this w) →
       ∃ w', (addPolicy this sec ptype oldRule;;
              updatePolicy this sec ptype oldRule newRule) w = (Ok tt, w')
         ∧ documents this w'
           = documents this w
             ++ [stored (clock w (ticks w)) (clock w (S (ticks w)))
                   ptype newRule]).
Proof.
  split; [intros; apply update_stored|].
  split; [intros; by rewrite !update_stored|].
  intros w H Hnone.
  set (w1 := record (InsertOne (collectionName this)
                       (inserted (clock w (ticks w)) ptype oldRule))
               (with_store
                  (upsert_docs
                     (Mongo.insertOne
                        (inserted (clock w (ticks w)) ptype oldRule))
                     (namespace this) (store w))
                  (record (DbCollection (collectionName this))
                     (record (ClientDb (databaseName this)) (tick w))))).
  assert (healthy w1) as H1 by (unfold w1; auto 10 with healthy).
  eexists. split.
  { erewrite bind_ok by (by apply addPolicy_healthy).
    fold w1. by apply updatePolicy_healthy. }
  unfold documents in *. simpl. rewrite docs_of_alter_docs by done.
  rewrite docs_of_upsert_docs. unfold Mongo.insertOne.
  rewrite (updateOne_first _ _ _ _ []) by (done || apply inserted_matches).
  by rewrite <- stored_same, update_stored.
Qed.

Lemma updatePolicy_replaces_rule_witness :
  ∃ w', (addPolicy adapter0 "p" "p"
           ["alice"; "data1"; "read"; "confidential"; "admin"];;
         updatePolicy adapter0 "p" "p"
           ["alice"; "data1"; "read"; "confidential"; "admin"]
           ["alice"; "data1"; "read"]) world0 = (Ok tt, w')
    ∧ documents adapter0 w'
      = [stored 1000 1001 "p" ["alice"; "data1"; "read"]].
Proof.
  destruct (updatePolicy_replaces_rule adapter0 "p" "p"
              ["alice"; "data1"; "read"; "confidential"; "admin"]
              ["alice"; "data1"; "read"]) as (_ & _ & H).
  apply (H world0 healthy_world0). constructor.
Defined.

(** X7.  In a run without failures, [updatePolicy] for an old rule whose
    key no stored document matches leaves the store as it is: nothing is
    updated and the new rule is not inserted. *)
Theorem updatePolicy_no_match this sec ptype oldRule newRule w :
  healthy w →
  Forall (λ x, Mongo.matches (rule_line ptype oldRule) x = false)
         (documents this w) →
  ∃ w', updatePolicy this sec ptype oldRule newRule w = (Ok tt, w')
    ∧ store w' = store w.
Proof.
  intros H Hnone. eexists. split; [by apply updatePolicy_healthy|].
  simpl. apply alter_docs_same. by apply updateOne_no_match.
Qed.

Lemma updatePolicy_no_match_witness :
  let w := with_store
             {[ namespace adapter0 :=
                  Collection [inserted 900 "p" ["bob"; "data2"; "write"]] [] ]}
             world0 in
  ∃ w', updatePolicy adapter0 "p" "p" ["alice"; "data1"; "read"]
          ["alice"; "data1"; "write"] w = (Ok tt, w')
    ∧ store w' = store w.
Proof.
  intros w.
  apply (updatePolicy_no_match adapter0 "p" "p").
  - intros n. reflexivity.
  - repeat constructor.
Defined.

(** ** removeFilteredPolicy, further *)

Lemma filter_ext_bool {A} (f g : A → bool) (l : list A) :
  (∀ x, f x = g x) → List.filter f l = List.filter g l.
Proof.
  intros H. induction l as [|x l IH]; simpl; [done|]. by rewrite H, IH.
Qed.

Lemma filter_filter_same {A} (f : A → bool) (l : list A) :
  List.filter f (List.filter f l) = List.filter f l.
Proof.
  induction l as [|x l IH]; simpl; [done|].
  destruct (f x) eqn:Hx; simpl; [|done]. by rewrite Hx, IH.
Qed.

(** X8.  When the window of [removeFilteredPolicy] holds none of the
    indices 0..5 (no field value is given, or the offset is 6 or more, or
    the window ends before 0), the filter is the ptype alone: in a run
    without failures every document of that ptype is deleted, and the
    documents of other ptypes are kept, in order. *)
Theorem removeFilteredPolicy_whole_ptype this sec ptype fieldIndex fieldValues w :
  healthy w →
  fieldValues = [] ∨ (6 ≤ fieldIndex)%Z
  ∨ (fieldIndex + Z.of_nat (length fieldValues) ≤ 0)%Z →
  ∃ w', removeFilteredPolicy this sec ptype fieldIndex fieldValues w
        = (Ok tt, w')
    ∧ documents this w'
      = List.filter
          (λ d, negb (bool_decide (d !! k_ptype = Some (VStr ptype))))
          (documents this w).
Proof.
  intros H Hwin. eexists. split; [by apply removeFilteredPolicy_healthy|].
  unfold documents. simpl. rewrite docs_of_alter_docs by done.
  unfold Mongo.deleteMany. apply filter_ext_bool. intros d. f_equal.
  apply eq_true_iff_eq. rewrite filter_fields_matches, bool_decide_eq_true.
  split; [tauto|]. intros Hp. split; [done|].
  intros k [Hk Hw]. destruct Hwin as [->|[?|?]]; simpl in Hw; lia.
Qed.

Lemma removeFilteredPolicy_whole_ptype_witness :
  let w := with_store
             {[ namespace adapter0 :=
                  Collection [inserted 900 "p" ["alice"; "data1"; "read"];
                              inserted 901 "g" ["alice"; "admin"];
                              inserted 902 "p" ["bob"; "data2"; "write"]] [] ]}
             world0 in
  ∃ w', removeFilteredPolicy adapter0 "p" "p" 0 [] w = (Ok tt, w')
    ∧ documents adapter0 w' = [inserted 901 "g" ["alice"; "admin"]].
Proof.
  intros w.
  assert (healthy w) as Hw by (intros n; reflexivity).
  destruct (removeFilteredPolicy_whole_ptype adapter0 "p" "p" 0 [] w Hw)
    as (w' & Hrun & Hdocs); [by left|].
  exists w'. split; [exact Hrun|]. rewrite Hdocs. vm_compute. reflexivity.
Defined.

(** X9.  [removeFilteredPolicy] is idempotent on the documents: in a run
    without failures, calling it a second time with the same arguments
    finds nothing left to delete and leaves the store as the first call
    left it. *)
Theorem removeFilteredPolicy_twice this sec ptype fieldIndex fieldValues w :
  healthy w →
  ∃ w1 w2,
    removeFilteredPolicy this sec ptype fieldIndex fieldValues w = (Ok tt, w1)
    ∧ removeFilteredPolicy this sec ptype fieldIndex fieldValues w1
      = (Ok tt, w2)
    ∧ store w2 = store w1.
Proof.
  intros H. eexists _, _.
  split; [by apply removeFilteredPolicy_healthy|].
  split; [apply removeFilteredPolicy_healthy; auto 10 with healthy|].
  simpl. apply alter_docs_same. rewrite docs_of_alter_docs by done.
  apply filter_filter_same.
Qed.

Lemma removeFilteredPolicy_twice_witness :
  let w := with_store
             {[ namespace adapter0 :=
                  Collection [inserted 900 "p" ["harry"; "data8"; "read"];
                              inserted 901 "p" ["ivy"; "data10"; "read"]] [] ]}
             world0 in
  ∃ w1 w2,
    removeFilteredPolicy adapter0 "p" "p" 0 ["harry"] w = (Ok tt, w1)
    ∧ removeFilteredPolicy adapter0 "p" "p" 0 ["harry"] w1 = (Ok tt, w2)
    ∧ store w2 = store w1.
Proof.
  intros w. apply (removeFilteredPolicy_twice adapter0 "p" "p" 0 ["harry"] w).
  intros n. reflexivity.
Defined.

(** ** Runs in which a given call fails *)

Lemma healthy_calm n w : healthy w → calm n w.
Proof. intros H k _. apply H. Qed.

Lemma calm_le n m w : m ≤ n → calm n w → calm m w.
Proof. intros Hle H k Hk. apply H. lia. Qed.

Lemma calm_record c n w : calm (S n) w → calm n (record c w).
Proof.
  intros H k Hk. simpl. rewrite length_app. simpl.
  replace (length (journal w) + 1 + k) with (length (journal w) + S k) by lia.
  apply H. lia.
Qed.

Lemma calm_with_store s n w : calm n w → calm n (with_store s w).
Proof. intros H k Hk. by apply H. Qed.

Lemma calm_tick n w : calm n w → calm n (tick w).
Proof. intros H k Hk. by apply H. Qed.

Lemma calm_advance k n w : calm n w → calm n (advance k w).
Proof.
  intros H. induction k as [|k IH]; [done|]. simpl. by apply calm_tick.
Qed.

Lemma fails_after_record c n msg w :
  fails_after (S n) msg w → fails_after n msg (record c w).
Proof.
  unfold fails_after. simpl. rewrite length_app. simpl.
  by replace (length (journal w) + 1 + n) with (length (journal w) + S n) by lia.
Qed.

Lemma fails_after_with_store s n msg w :
  fails_after n msg w → fails_after n msg (with_store s w).
Proof. done. Qed.

Lemma fails_after_tick n msg w : fails_after n msg w → fails_after n msg (tick w).
Proof. done. Qed.

Lemma fails_after_advance k n msg w :
  fails_after n msg w → fails_after n msg (advance k w).
Proof.
  intros H. induction k as [|k IH]; [done|]. simpl. by apply fails_after_tick.
Qed.

Create HintDb calm.
#[global] Hint Resolve calm_record calm_with_store calm_tick calm_advance
  fails_after_record fails_after_with_store fails_after_tick
  fails_after_advance : calm.

Lemma extern_calm {A} (c : command)
    (f : gmap (string * string) collection
         → A * gmap (string * string) collection) (n : nat) (w : world) :
  calm (S n) w →
  extern c f w = (Ok (f (store w)).1, record c (with_store (f (store w)).2 w)).
Proof.
  intros H. unfold extern.
  specialize (H 0 (Nat.lt_0_succ n)). rewrite Nat.add_0_r in H. rewrite H.
  by destruct (f (store w)).
Qed.

Lemma extern_read_calm {A} (c : command)
    (g : gmap (string * string) collection → A) (n : nat) (w : world) :
  calm (S n) w → extern c (λ s, (g s, s)) w = (Ok (g (store w)), record c w).
Proof.
  intros H. rewrite (extern_calm _ _ n) by done. simpl.
  by rewrite with_store_same.
Qed.

Lemma extern_fails {A} (c : command)
    (f : gmap (string * string) collection
         → A * gmap (string * string) collection) (msg : string) (w : world) :
  fails_after 0 msg w → extern c f w = (Throw (JsError msg), record c w).
Proof.
  unfold fails_after. rewrite Nat.add_0_r. intros H. unfold extern. by rewrite H.
Qed.

Lemma getCollection_calm this n w :
  calm (S (S n)) w →
  getCollection this w =
    (Ok (namespace this),
     record (DbCollection (collectionName this))
       (record (ClientDb (databaseName this)) w)).
Proof.
  intros H. unfold getCollection. apply try_ok.
  erewrite bind_ok by (apply (extern_read_calm _ (λ _, tt) (S n)); done).
  erewrite bind_ok
    by (apply (extern_read_calm _ (λ _, tt) n); auto with calm).
  reflexivity.
Qed.

Lemma getDatabase_calm this n w :
  calm (S n) w →
  getDatabase this w =
    (Ok (databaseName this), record (ClientDb (databaseName this)) w).
Proof.
  intros H. unfold getDatabase. apply try_ok.
  erewrite bind_ok by (apply (extern_read_calm _ (λ _, tt) n); done).
  reflexivity.
Qed.



(** ** Wrapped errors *)

Lemma try_catch_wraps {A} (m : M A) context w e w' :
  try_catch m (λ e, throw (wrapError e context)) w = (Throw e, w') →
  ∃ cause, e = wrapError cause context ∧ m w = (Throw cause, w').
Proof.
  unfold try_catch, throw. destruct (m w) as [[a|cause] w1]; [done|].
  intros [= <- <-]. by exists cause.
Qed.




Lemma getCollection_fails this msg w :
  fails_after 0 msg w →
  getCollection this w =
    (Throw (wrapError (JsError msg)
              ("Failed to get collection '" +:+ collectionName this +:+ "'")),
     record (ClientDb (databaseName this)) w).
Proof.
  intros H. unfold getCollection.
  erewrite try_throw; [reflexivity|].
  apply bind_throw. by apply extern_fails.
Qed.

Lemma getDatabase_fails this msg w :
  fails_after 0 msg w →
  getDatabase this w =
    (Throw (wrapError (JsError msg)
              ("Failed to get database '" +:+ databaseName this +:+ "'")),
     record (ClientDb (databaseName this)) w).
Proof.
  intros H. unfold getDatabase.
  erewrite try_throw; [reflexivity|].
  apply bind_throw. by apply extern_fails.
Qed.

(** X12.  When the first call an operation makes fails with message
    [msg]: [getCollection] and the operations that start by it
    ([removePolicy], [removeFilteredPolicy]) throw "Failed to get
    collection '<name>': msg"; [loadFilteredPolicy] wraps that error once
    more in its own context; [clearCollection], and [savePolicy] through
    it, throw "Failed to clear collection '<name>'" around "Failed to get
    database '<db>': msg", the store being left as it was; [open] and
    [close] throw their context around [msg]. *)
Theorem first_call_failure this sec ptype rule fieldIndex fieldValues
    filter m msg w :
  fails_after 0 msg w →
  let get_collection_error :=
    wrapError (JsError msg)
      ("Failed to get collection '" +:+ collectionName this +:+ "'") in
  let clear_error :=
    wrapError
      (wrapError (JsError msg)
         ("Failed to get database '" +:+ databaseName this +:+ "'"))
      ("Failed to clear collection '" +:+ collectionName this +:+ "'") in
  (getCollection this w).1 = Throw get_collection_error
  ∧ (removePolicy this sec ptype rule w).1 = Throw get_collection_error
  ∧ (removeFilteredPolicy this sec ptype fieldIndex fieldValues w).1
    = Throw get_collection_error
  ∧ (loadFilteredPolicy this filter w).1
    = Throw (wrapError get_collection_error "Failed to load filtered policy")
  ∧ clearCollection this w
    = (Throw clear_error, record (ClientDb (databaseName this)) w)
  ∧ savePolicy this m w
    = (Throw clear_error, record (ClientDb (databaseName this)) w)
  ∧ (open this w).1
    = Throw (wrapError (JsError msg)
               "Failed to open MongoDB connection and create collection")
  ∧ (close this w).1
    = Throw (wrapError (JsError msg) "Failed to close MongoDB connection").
Proof.
  intros H gce ce.
  assert (clearCollection this w
          = (Throw ce, record (ClientDb (databaseName this)) w)) as Hclear.
  { unfold clearCollection. erewrite try_throw; [reflexivity|].
    apply bind_throw. by apply getDatabase_fails. }
  split; [by rewrite (getCollection_fails this msg)|].
  split.
  { unfold removePolicy. erewrite bind_ok by apply convert_none.
    erewrite bind_throw by (by apply getCollection_fails). done. }
  split.
  { unfold removeFilteredPolicy.
    erewrite bind_throw by (by apply getCollection_fails). done. }
  split.
  { unfold loadFilteredPolicy. erewrite try_throw; [reflexivity|].
    apply bind_throw. unfold getFilteredPolicyLines.
    apply bind_throw. by apply getCollection_fails. }
  split; [exact Hclear|].
  split. { unfold savePolicy. by apply bind_throw. }
  split.
  { unfold open. erewrite try_throw; [reflexivity|].
    apply bind_throw. by apply extern_fails. }
  unfold close. erewrite try_throw; [reflexivity|]. by apply extern_fails.
Qed.

Lemma first_call_failure_witness :
  error_message
    match (clearCollection adapter0 world_fault_at_0).1 with
    | Throw e => e
    | Ok _ => JsError "no error"
    end
  = "Failed to clear collection 'policies': Failed to get database 'casbin': Database error".
Proof.
  destruct (first_call_failure adapter0 "p" "p" [] 0 [] None model0
              "Database error" world_fault_at_0)
    as (_ & _ & _ & _ & H & _).
  - reflexivity.
  - rewrite H. reflexivity.
Defined.

(** ** Opening *)

Lemma createCollection_wraps this w e w' :
  createCollection this w = (Throw e, w') →
  ∃ cause, e = wrapError cause
             ("Failed to create collection '" +:+ collectionName this +:+ "'").
Proof.
  intros H. apply try_catch_wraps in H as (cause & -> & _). by exists cause.
Qed.

Lemma createIndexes_returns this w : ∃ w', createIndexes this w = (Ok tt, w').
Proof.
  unfold createIndexes, try_catch, logger.
  match goal with
  | |- ∃ w', (match ?body with _ => _ end) = _ =>
      destruct body as [[[]|e] w1]
  end; by eexists.
Qed.



(** X14.  [open] fails only through the connection or the creation of the
    collection: the error it throws is its context around the error of
    [connect] or around the wrapped error of [createCollection]; once these
    two have succeeded [open] returns, whatever happens while the indexes
    are created. *)
Theorem open_failures this w :
  (∀ e w', open this w = (Throw e, w') →
     ∃ cause,
       e = wrapError cause
             "Failed to open MongoDB connection and create collection"
       ∧ ((∃ msg, cause = JsError msg)
          ∨ ∃ inner,
              cause = wrapError inner
                ("Failed to create collection '"
                 +:+ collectionName this +:+ "'")))
  ∧ (∀ w1 w2,
       extern Connect (λ s, (tt, s)) w = (Ok tt, w1) →
       createCollection this w1 = (Ok tt, w2) →
       ∃ w', open this w = (Ok tt, w')).
Proof.
  split.
  - intros e w' H. unfold open in H.
    apply try_catch_wraps in H as (cause & -> & H).
    exists cause. split; [done|].
    unfold mbind, M_bind in H.
    destruct (extern Connect _ w) as [[[]|e1] w1] eqn:Hconn.
    + destruct (createCollection this w1) as [[[]|e2] w2] eqn:Hcc.
      * destruct (createIndexes_returns this w2) as [w3 Hix].
        rewrite Hix in H. done.
      * injection H as <- <-. right.
        destruct (createCollection_wraps this w1 e2 w2 Hcc) as [inner ->].
        by exists inner.
    + injection H as <- <-. left. unfold extern in Hconn.
      destruct (fault w (length (journal w))) as [msg|]; [|done].
      injection Hconn as <- _. by exists msg.
  - intros w1 w2 Hconn Hcc.
    destruct (createIndexes_returns this w2) as [w3 Hix].
    exists w3. unfold open. apply try_ok.
    erewrite bind_ok by exact Hconn. erewrite bind_ok by exact Hcc. exact Hix.
Qed.

Lemma open_failures_witness :
  ∃ cause,
    wrapError (JsError "Database error")
      "Failed to open MongoDB connection and create collection"
    = wrapError cause "Failed to open MongoDB connection and create collection"
    ∧ ((∃ msg, cause = JsError msg)
       ∨ ∃ inner, cause = wrapError inner "Failed to create collection 'policies'").
Proof.
  destruct (open_failures adapter0 world_fault_at_0) as [H _].
  apply (H _ (record Connect world_fault_at_0)).
  vm_compute. reflexivity.
Defined.

(** ** savePolicy when the insertion fails *)

Lemma clearCollection_calm this n w :
  calm (5 + n) w →
  is_Some (store w !! namespace this) →
  clearCollection this w =
    (Ok tt,
     record (if dropCollectionOnManualSave this
             then Drop (collectionName this)
             else DeleteMany (collectionName this) ∅)
       (with_store
          (if dropCollectionOnManualSave this
           then delete (namespace this) (store w)
           else alter_docs (Mongo.deleteMany ∅) (namespace this) (store w))
          (record (DbCollection (collectionName this))
             (record (ClientDb (databaseName this))
                (record (ListCollections (collectionName this))
                   (record (ClientDb (databaseName this)) w)))))).
Proof.
  intros H Hex. unfold clearCollection. apply try_ok.
  erewrite bind_ok by (apply (getDatabase_calm this (4 + n)); done).
  erewrite bind_ok
    by (apply (extern_read_calm _ _ (3 + n)); auto with calm).
  cbn [store record].
  change (databaseName this, collectionName this) with (namespace this).
  rewrite bool_decide_eq_true_2 by done.
  destruct (dropCollectionOnManualSave this).
  - erewrite bind_ok
      by (apply (getCollection_calm this (1 + n)); auto with calm).
    rewrite (extern_calm _ _ n) by auto 10 with calm. reflexivity.
  - erewrite bind_ok
      by (apply (getCollection_calm this (1 + n)); auto with calm).
    rewrite (extern_calm _ _ n) by auto 10 with calm. reflexivity.
Qed.

(** X15.  [savePolicy] is not atomic.  When the collection exists and the
    model holds a rule, and everything succeeds up to the [insertMany] call,
    which fails: [savePolicy] throws the driver's error as it is, and the
    collection has already been cleared, so the documents stored before are
    gone (the collection itself is gone when the drop-on-save flag is
    set). *)
Theorem savePolicy_insert_failure this m msg w :
  is_Some (store w !! namespace this) →
  rules_of m "p" ++ rules_of m "g" ≠ [] →
  calm 7 w → fails_after 7 msg w →
  ∃ w', savePolicy this m w = (Throw (JsError msg), w')
    ∧ documents this w' = []
    ∧ (dropCollectionOnManualSave this = true →
       store w' !! namespace this = None).
Proof.
  intros Hex Hrules Hc Hf.
  set (w1 := record (if dropCollectionOnManualSave this
                     then Drop (collectionName this)
                     else DeleteMany (collectionName this) ∅)
               (with_store
                  (if dropCollectionOnManualSave this
                   then delete (namespace this) (store w)
                   else alter_docs (Mongo.deleteMany ∅) (namespace this)
                          (store w))
                  (record (DbCollection (collectionName this))
                     (record (ClientDb (databaseName this))
                        (record (ListCollections (collectionName this))
                           (record (ClientDb (databaseName this)) w)))))).
  assert (calm 2 w1) as Hc1 by (unfold w1; auto 20 with calm).
  assert (fails_after 2 msg w1) as Hf1 by (unfold w1; auto 20 with calm).
  set (rules := rules_of m "p" ++ rules_of m "g") in *.
  set (w2 := advance (length rules) w1).
  assert (calm 2 w2) as Hc2 by (unfold w2; auto with calm).
  assert (fails_after 2 msg w2) as Hf2 by (unfold w2; auto with calm).
  exists (record (InsertMany (collectionName this)
                    (stamp_all (clock w1) (ticks w1) rules))
            (record (DbCollection (collectionName this))
               (record (ClientDb (databaseName this)) w2))).
  split.
  { unfold savePolicy.
    erewrite bind_ok by (apply (clearCollection_calm this 2); done).
    fold w1. erewrite bind_ok by apply getAllPolicyRules_run.
    fold rules. fold w2.
    rewrite bool_decide_eq_true_2.
    2: { rewrite stamp_all_length. destruct rules; [done|simpl; lia]. }
    apply bind_throw.
    erewrite bind_ok by (apply (getCollection_calm this 0); done).
    apply extern_fails. auto with calm. }
  split.
  { unfold documents, w2. simpl. rewrite store_advance. unfold w1. simpl.
    destruct (dropCollectionOnManualSave this).
    - unfold docs_of. by rewrite lookup_delete_eq.
    - rewrite docs_of_alter_docs by done. apply deleteMany_empty. }
  intros Hdrop. unfold w2. simpl. rewrite store_advance. unfold w1. simpl.
  rewrite Hdrop. apply lookup_delete_eq.
Qed.

Lemma savePolicy_insert_failure_witness :
  ∃ w', savePolicy adapter0 model0 world_fault_at_7
        = (Throw (JsError "insert failed"), w')
    ∧ documents adapter0 w' = [].
Proof.
  destruct (savePolicy_insert_failure adapter0 model0 "insert failed"
              world_fault_at_7) as (w' & Hrun & Hdocs & _).
  - vm_compute. by eexists.
  - vm_compute. discriminate.
  - intros k Hk.
    destruct k as [|[|[|[|[|[|[|k]]]]]]]; try reflexivity. lia.
  - reflexivity.
  - by exists w'.
Defined.

(** ** Opening without failures *)

Lemma indexes_of_add_index key ixname n s :
  indexes_of (add_index key ixname n s) n
  = indexes_of s n ++ [made_index (key, ixname)].
Proof. unfold add_index, indexes_of at 1. by rewrite lookup_insert_eq. Qed.

Lemma docs_of_add_index key ixname n s :
  docs_of (add_index key ixname n s) n = docs_of s n.
Proof. unfold add_index, docs_of at 1. by rewrite lookup_insert_eq. Qed.

Lemma add_index_other key ixname n s n' :
  n ≠ n' → add_index key ixname n s !! n' = s !! n'.
Proof. intros Hne. unfold add_index. by rewrite lookup_insert_ne. Qed.

Lemma add_index_is_Some key ixname n s :
  is_Some (add_index key ixname n s !! n).
Proof. unfold add_index. rewrite lookup_insert_eq. by eexists. Qed.

Lemma add_indexes_spec n kms : ∀ s,
  let s' := foldl (λ s km, add_index km.1 km.2 n s) s kms in
  indexes_of s' n = indexes_of s n ++ map made_index kms
  ∧ docs_of s' n = docs_of s n
  ∧ (is_Some (s !! n) → is_Some (s' !! n))
  ∧ (∀ n', n ≠ n' → s' !! n' = s !! n').
Proof.
  induction kms as [|[key ixname] kms IH]; intros s; cbn [foldl].
  - by rewrite app_nil_r.
  - destruct (IH (add_index key ixname n s)) as (Hi & Hd & Hs & Ho).
    cbn zeta. cbn [fst snd].
    split; [rewrite Hi, indexes_of_add_index; by rewrite <- app_assoc|].
    split; [by rewrite Hd, docs_of_add_index|].
    split; [intros _; apply Hs, add_index_is_Some|].
    intros n' Hn. by rewrite Ho, add_index_other.
Qed.

Lemma missing_indexes_settled existing :
  missing_indexes (existing ++ map made_index (missing_indexes existing)) = [].
Proof.
  unfold missing_indexes.
  destruct (existsb (λ ix, bool_decide (ix_name ix = compound_name)) existing)
    eqn:E1;
  destruct (existsb (key_has "createdAt") existing) eqn:E2;
  destruct (existsb (key_has "updatedAt") existing) eqn:E3;
  rewrite !existsb_app, E1, E2, E3; reflexivity.
Qed.

Lemma createCollection_healthy this w :
  healthy w →
  ∃ w', createCollection this w = (Ok tt, w') ∧ healthy w'
    ∧ store w' =
        if bool_decide (is_Some (store w !! namespace this))
        then store w else upsert_docs id (namespace this) (store w).
Proof.
  intros H. unfold createCollection.
  destruct (bool_decide (is_Some (store w !! namespace this))) eqn:Hex.
  - eexists. split.
    { apply try_ok.
      erewrite bind_ok by (by apply getDatabase_healthy).
      erewrite bind_ok by (apply extern_read_healthy; auto with healthy).
      cbn [store record].
      change (databaseName this, collectionName this) with (namespace this).
      rewrite Hex. reflexivity. }
    split; [auto with healthy|done].
  - eexists. split.
    { apply try_ok.
      erewrite bind_ok by (by apply getDatabase_healthy).
      erewrite bind_ok by (apply extern_read_healthy; auto with healthy).
      cbn [store record].
      change (databaseName this, collectionName this) with (namespace this).
      rewrite Hex. cbn [negb].
      erewrite bind_ok by (apply extern_healthy; auto with healthy).
      reflexivity. }
    split; [auto 10 with healthy|done].
Qed.

Ltac run_ok :=
  lazymatch goal with
  | |- (_ ≫= _) _ = _ => erewrite bind_ok by run_ok; run_ok
  | |- extern _ _ _ = _ => apply extern_healthy; auto 40 with healthy
  | |- getCollection _ _ = _ => apply getCollection_healthy; auto 40 with healthy
  | |- _ => reflexivity
  end.

Lemma createIndexes_healthy this w :
  healthy w →
  ∃ w', createIndexes this w = (Ok tt, w') ∧ healthy w'
    ∧ store w' =
        foldl (λ s km, add_index km.1 km.2 (namespace this) s) (store w)
          (missing_indexes (indexes_of (store w) (namespace this))).
Proof.
  intros H. unfold createIndexes, missing_indexes, indexes_of.
  destruct (existsb (λ ix, bool_decide (ix_name ix = compound_name))
              (from_option c_indexes [] (store w !! namespace this))) eqn:E1;
  destruct (existsb (key_has "createdAt")
              (from_option c_indexes [] (store w !! namespace this))) eqn:E2;
  destruct (existsb (key_has "updatedAt")
              (from_option c_indexes [] (store w !! namespace this))) eqn:E3;
  (eexists; split;
   [ apply try_ok;
     erewrite bind_ok by (by apply getCollection_healthy);
     erewrite bind_ok by (apply extern_read_healthy; auto with healthy);
     cbn [store record]; rewrite E1, E2, E3; cbn [negb];
     run_ok
   | split; [auto 40 with healthy | reflexivity] ]).
Qed.

Lemma open_healthy this w :
  healthy w →
  ∃ w', open this w = (Ok tt, w') ∧ healthy w'
    ∧ store w' =
        let s := if bool_decide (is_Some (store w !! namespace this))
                 then store w else upsert_docs id (namespace this) (store w) in
        foldl (λ s km, add_index km.1 km.2 (namespace this) s) s
          (missing_indexes (indexes_of s (namespace this))).
Proof.
  intros H.
  assert (healthy (record Connect w)) as H0 by auto with healthy.
  destruct (createCollection_healthy this (record Connect w) H0)
    as (w1 & Hcc & H1 & Hs1).
  destruct (createIndexes_healthy this w1 H1) as (w2 & Hix & H2 & Hs2).
  exists w2. split.
  - unfold open. apply try_ok.
    erewrite bind_ok by (by apply extern_pure_healthy).
    erewrite bind_ok by exact Hcc. exact Hix.
  - split; [done|]. rewrite Hs2, Hs1. reflexivity.
Qed.

(** X16.  In a run without failures [open] leaves the collection existing
    with its documents and its indexes as they were, followed by those of
    the three indexes that were missing: the compound index by its name,
    and an index on [createdAt] and one on [updatedAt] by their key.  After
    it none is missing, so opening again changes nothing in the store, and
    opening on a collection without index gives exactly the three.  Other
    collections are untouched. *)
Theorem open_ensures_indexes this w :
  healthy w →
  ∃ w', open this w = (Ok tt, w')
    ∧ is_Some (store w' !! namespace this)
    ∧ documents this w' = documents this w
    ∧ indexes_of (store w') (namespace this)
      = indexes_of (store w) (namespace this)
        ++ map made_index
             (missing_indexes (indexes_of (store w) (namespace this)))
    ∧ missing_indexes (indexes_of (store w') (namespace this)) = []
    ∧ (indexes_of (store w) (namespace this) = [] →
       indexes_of (store w') (namespace this)
       = [Index compound_name compound_key;
          Index "createdAt_1" [("createdAt", 1%Z)];
          Index "updatedAt_1" [("updatedAt", 1%Z)]])
    ∧ (∀ n, namespace this ≠ n → store w' !! n = store w !! n)
    ∧ ∃ w'', open this w' = (Ok tt, w'') ∧ store w'' = store w'.
Proof.
  intros H.
  destruct (open_healthy this w H) as (w' & Hrun & H' & Hs).
  set (s := if bool_decide (is_Some (store w !! namespace this))
            then store w else upsert_docs id (namespace this) (store w)) in Hs.
  assert (is_Some (s !! namespace this)
          ∧ docs_of s (namespace this) = docs_of (store w) (namespace this)
          ∧ indexes_of s (namespace this)
            = indexes_of (store w) (namespace this)
          ∧ ∀ n, namespace this ≠ n → s !! n = store w !! n) as (Hex & Hd & Hi & Ho).
  { unfold s. case_bool_decide as Hex; [done|].
    split; [unfold upsert_docs; rewrite lookup_insert_eq; by eexists|].
    split; [by rewrite docs_of_upsert_docs|].
    split; [apply indexes_of_upsert_docs|].
    intros n Hn. by apply upsert_docs_other. }
  destruct (add_indexes_spec (namespace this)
              (missing_indexes (indexes_of s (namespace this))) s)
    as (Hi' & Hd' & Hex' & Ho').
  cbn zeta in Hs. rewrite <- Hs in Hi', Hd', Hex', Ho'.
  assert (indexes_of (store w') (namespace this)
          = indexes_of (store w) (namespace this)
            ++ map made_index
                 (missing_indexes (indexes_of (store w) (namespace this))))
    as Hidx by (by rewrite Hi', Hi).
  assert (missing_indexes (indexes_of (store w') (namespace this)) = [])
    as Hnone by (rewrite Hidx; apply missing_indexes_settled).
  exists w'. split; [exact Hrun|]. split; [by apply Hex'|].
  split; [unfold documents; by rewrite Hd', Hd|].
  split; [exact Hidx|]. split; [exact Hnone|].
  split; [intros Hempty; rewrite Hidx, Hempty; reflexivity|].
  split; [intros n Hn; by rewrite Ho', Ho|].
  destruct (open_healthy this w' H') as (w'' & Hrun' & _ & Hs').
  exists w''. split; [exact Hrun'|].
  rewrite Hs'. rewrite bool_decide_eq_true_2 by (by apply Hex').
  cbn zeta. by rewrite Hnone.
Qed.

Lemma open_ensures_indexes_witness :
  ∃ w', open adapter0 world0 = (Ok tt, w')
    ∧ indexes_of (store w') (namespace adapter0)
      = [Index compound_name compound_key;
         Index "createdAt_1" [("createdAt", 1%Z)];
         Index "updatedAt_1" [("updatedAt", 1%Z)]].
Proof.
  destruct (open_ensures_indexes adapter0 world0 healthy_world0)
    as (w' & Hrun & _ & _ & _ & _ & Hfresh & _).
  exists w'. split; [exact Hrun|]. apply Hfresh. reflexivity.
Defined.

(** ** Saving, then loading *)

Lemma savePolicy_healthy this m w :
  healthy w →
  ∃ w', savePolicy this m w = (Ok true, w') ∧ healthy w'
    ∧ documents this w'
      = stamp_all (clock w) (ticks w) (rules_of m "p" ++ rules_of m "g").
Proof.
  intros H.
  set (rules := rules_of m "p" ++ rules_of m "g").
  set (allRules := stamp_all (clock w) (ticks w) rules).
  destruct (clearCollection_healthy this w H)
    as (w1 & Hclear & H1 & Hclock & Hticks & _ & Hs).
  set (w2 := advance (length rules) w1).
  assert (healthy w2) as H2 by (unfold w2; auto with healthy).
  assert (getAllPolicyRules m w1 = (Ok allRules, w2)) as Hall.
  { rewrite getAllPolicyRules_run. by rewrite Hclock, Hticks. }
  assert (documents this w2 = []) as Hdocs.
  { unfold documents, w2. rewrite store_advance, Hs. apply cleared_documents. }
  unfold savePolicy. erewrite bind_ok by apply Hclear.
  erewrite bind_ok by apply Hall.
  destruct (bool_decide (0 < length allRules)) eqn:Hlen.
  - eexists. split.
    { erewrite bind_ok; [reflexivity|].
      erewrite bind_ok by (by apply getCollection_healthy).
      apply extern_healthy. auto with healthy. }
    split; [auto 10 with healthy|].
    unfold documents in *. simpl. by rewrite docs_of_upsert_docs, Hdocs.
  - exists w2. split; [done|]. split; [done|].
    rewrite Hdocs. symmetry. apply nil_length_inv.
    apply bool_decide_eq_false in Hlen. lia.
Qed.

Lemma policy_line_inserted dt now ptype rule :
  Forall (λ s, s ≠ "") rule →
  policy_line dt (inserted now ptype rule)
  = ptype +:+ ", " +:+ String.concat ", " (take 6 rule).
Proof.
  intros Hne. apply policy_line_of_rule; [done| |].
  - unfold inserted. by rewrite !lookup_insert_ne, rule_line_ptype.
  - intros k. rewrite inserted_field. apply rule_line_field.
Qed.

Lemma lines_of_stamp_all dt clk rules : ∀ t0,
  Forall (λ pr : string * list string, Forall (λ s, s ≠ "") pr.2) rules →
  map (λ d, HelperLoadPolicyLine (policy_line dt d)) (stamp_all clk t0 rules)
  = map (λ pr, HelperLoadPolicyLine
                 (pr.1 +:+ ", " +:+ String.concat ", " (take 6 pr.2))) rules.
Proof.
  induction rules as [|[ptype rule] rules IH]; intros t0 Hne; [done|].
  inversion Hne as [|? ? Hrule Hrest]; subst.
  change ((ptype, rule) :: rules) with ([(ptype, rule)] ++ rules).
  rewrite stamp_all_app, !map_app, IH by done. f_equal.
  unfold stamp_all. simpl. by rewrite policy_line_inserted.
Qed.

(** X17.  Saving a model and loading the collection again feeds the
    enforcer's hook one line per rule of the model, the rules under ['p']
    before those under ['g'], each line being the rule type followed by the
    rule's fields (the first six), joined by ", ": provided no field of a
    rule is the empty string and no call fails. *)
Theorem savePolicy_loadPolicy_round_trip this m w :
  healthy w →
  Forall (λ pr : string * list string, Forall (λ s, s ≠ "") pr.2)
         (rules_of m "p" ++ rules_of m "g") →
  ∃ w1 w2,
    savePolicy this m w = (Ok true, w1)
    ∧ loadPolicy this w1 = (Ok tt, w2)
    ∧ journal w2 =
        journal w1
        ++ [ClientDb (databaseName this); DbCollection (collectionName this);
            Find (collectionName this) None]
        ++ map (λ pr, HelperLoadPolicyLine
                        (pr.1 +:+ ", " +:+ String.concat ", " (take 6 pr.2)))
             (rules_of m "p" ++ rules_of m "g")
    ∧ store w2 = store w1.
Proof.
  intros H Hne.
  destruct (savePolicy_healthy this m w H) as (w1 & Hsave & H1 & Hdocs).
  destruct (loadFilteredPolicy_healthy this None w1 H1)
    as (w2 & Hload & Hs & Hj).
  exists w1, w2. split; [exact Hsave|]. split; [exact Hload|].
  split; [|exact Hs].
  rewrite Hj. do 2 f_equal.
  - by destruct (useFilter this).
  - replace (default (λ _ : document, true)
               (if useFilter this then None else None))
      with (λ _ : document, true) by (by destruct (useFilter this)).
    rewrite filter_all, Hdocs. by apply lines_of_stamp_all.
Qed.

Lemma savePolicy_loadPolicy_round_trip_witness :
  ∃ w1 w2,
    savePolicy adapter0 model0 world0 = (Ok true, w1)
    ∧ loadPolicy adapter0 w1 = (Ok tt, w2)
    ∧ journal w2 =
        journal w1
        ++ [ClientDb "casbin"; DbCollection "policies"; Find "policies" None;
            HelperLoadPolicyLine "p, alice, data1, read";
            HelperLoadPolicyLine "p, bob, data2, write";
            HelperLoadPolicyLine "p2, carol, data3";
            HelperLoadPolicyLine "g, alice, admin"].
Proof.
  destruct (savePolicy_loadPolicy_round_trip adapter0 model0 world0
              healthy_world0) as (w1 & w2 & Hsave & Hload & Hj & _).
  - vm_compute. repeat constructor; discriminate.
  - exists w1, w2. split; [exact Hsave|]. split; [exact Hload|].
    rewrite Hj. reflexivity.
Defined.

(** ** removePolicies without failures *)

Lemma delete_in_order_cons ptype rules i schedule ds :
  delete_in_order ptype rules (i :: schedule) ds
  = delete_in_order ptype rules schedule
      (match rules !! i with
       | Some rule => Mongo.deleteOne (rule_line ptype rule) ds
       | None => ds
       end).
Proof. reflexivity. Qed.

Lemma run_in_order this ptype rules schedule : ∀ fw,
  healthy fw.2 →
  NoDup schedule →
  (∀ i rule, i ∈ schedule → rules !! i = Some rule →
             promises fw.1 !! i = Some (rule_line ptype rule, Pending)) →
  length (promises fw.1) = length rules →
  documents this (run this schedule fw).2
  = delete_in_order ptype rules schedule (documents this fw.2).
Proof.
  induction schedule as [|i schedule IH]; intros [f w] H Hnd Hpend Hlen;
    [done|].
  cbn [fst snd] in *. apply NoDup_cons in Hnd as [Hi Hnd].
  change (run this (i :: schedule) (f, w))
    with (run this schedule (settle this i f w)).
  rewrite delete_in_order_cons.
  destruct (rules !! i) as [rule|] eqn:Hrule.
  - assert (i ∈ i :: schedule) as Hin by (by left).
    pose proof (Hpend i rule Hin Hrule) as Hp.
    rewrite (settle_ok _ _ _ _ _ Hp) by apply H.
    rewrite IH; cbn [fst snd promises].
    + f_equal. unfold documents. simpl. by apply docs_of_alter_docs.
    + auto with healthy.
    + done.
    + intros j rule' Hj Hr. rewrite list_lookup_insert_ne by set_solver.
      apply Hpend; [by right|done].
    + by rewrite length_insert.
  - rewrite settle_idle.
    + apply IH; [done|done| |done].
      intros j rule' Hj Hr. apply Hpend; [by right|done].
    + intros line Hl. apply lookup_lt_Some in Hl.
      apply lookup_ge_None in Hrule. lia.
Qed.

(** X18.  In a run of [removePolicies] without failures the documents left
    are those that deleting the rules one at a time leaves, each deletion
    taking the first match of its rule's key, in the order in which the
    deletions settle (each deletion settling once), which need not be the
    order of the rules given. *)
Theorem removePolicies_in_schedule_order this sec ptype rules schedule w :
  healthy w → NoDup schedule →
  documents this
    (run this schedule (removePolicies this sec ptype rules w)).2
  = delete_in_order ptype rules schedule (documents this w).
Proof.
  intros H Hnd.
  destruct (removePolicies_healthy this sec ptype rules w H)
    as (w' & Hrun & H' & Hs).
  rewrite Hrun.
  rewrite (run_in_order this ptype rules); cbn [fst snd promises].
  - unfold documents. by rewrite Hs.
  - done.
  - done.
  - intros i rule _ Hr. by rewrite list_lookup_fmap, Hr.
  - by rewrite length_map.
Qed.

(** Two stored rules, one extending the other, and the two orders in which
    the deletions of the rules "alice" and "alice, data1" may settle: one
    order leaves the collection empty, the other leaves a document. *)
Lemma removePolicies_in_schedule_order_witness :
  let rules := [["alice"]; ["alice"; "data1"]] in
  let w := with_store
             {[ namespace adapter0 :=
                  Collection [inserted 900 "p" ["alice"; "data1"];
                              inserted 901 "p" ["alice"]] [] ]}
             world0 in
  documents adapter0
    (run adapter0 [1; 0] (removePolicies adapter0 "p" "p" rules w)).2 = []
  ∧ documents adapter0
      (run adapter0 [0; 1] (removePolicies adapter0 "p" "p" rules w)).2
    = [inserted 901 "p" ["alice"]].
Proof.
  intros rules w.
  assert (healthy w) as Hw by (intros n; reflexivity).
  split.
  - rewrite (removePolicies_in_schedule_order adapter0 "p" "p" rules [1; 0] w
               Hw).
    + vm_compute. reflexivity.
    + apply NoDup_cons. split; [by intros ?%list_elem_of_singleton|].
      apply NoDup_singleton.
  - rewrite (removePolicies_in_schedule_order adapter0 "p" "p" rules [0; 1] w
               Hw).
    + vm_compute. reflexivity.
    + apply NoDup_cons. split; [by intros ?%list_elem_of_singleton|].
      apply NoDup_singleton.
Defined.

(** ** newAdapter *)

(** X19.  In a run without failures [newAdapter], given a non-empty
    connection string, returns an adapter for the given database and
    collection whose two flags are the ones given, [false] when left out;
    the collection then exists with none of the three indexes missing and
    with the documents it had. *)
Theorem newAdapter_opens uri database collection filtered dropFlag w :
  healthy w → uri ≠ "" →
  let a := {| databaseName := database;
              mongoClient := uri;
              collectionName := collection;
              dropCollectionOnManualSave := default false dropFlag;
              useFilter := default false filtered |} in
  ∃ w', newAdapter uri database collection filtered dropFlag w = (Ok a, w')
    ∧ isFiltered a = default false filtered
    ∧ is_Some (store w' !! namespace a)
    ∧ missing_indexes (indexes_of (store w') (namespace a)) = []
    ∧ documents a w' = documents a w.
Proof.
  intros H Huri a.
  assert (constructor uri database collection (default false filtered)
            (default false dropFlag) w
          = (Ok a, record (NewMongoClient uri) w)) as Hnew.
  { unfold constructor. rewrite bool_decide_eq_false_2 by done.
    erewrite bind_ok; [reflexivity|].
    apply try_ok. by apply extern_pure_healthy. }
  assert (healthy (record (NewMongoClient uri) w)) as H0 by auto with healthy.
  destruct (open_healthy a _ H0) as (w' & Hopen & H' & Hs).
  exists w'. split.
  { unfold newAdapter. erewrite bind_ok by exact Hnew.
    erewrite bind_ok by exact Hopen. done. }
  split; [done|].
  set (s := if bool_decide (is_Some (store (record (NewMongoClient uri) w)
                                     !! namespace a))
            then store (record (NewMongoClient uri) w)
            else upsert_docs id (namespace a)
                   (store (record (NewMongoClient uri) w))) in Hs.
  assert (is_Some (s !! namespace a)
          ∧ docs_of s (namespace a) = docs_of (store w) (namespace a))
    as (Hex & Hd).
  { unfold s. case_bool_decide as Hex; [done|].
    split; [unfold upsert_docs; rewrite lookup_insert_eq; by eexists|].
    by rewrite docs_of_upsert_docs. }
  destruct (add_indexes_spec (namespace a)
              (missing_indexes (indexes_of s (namespace a))) s)
    as (Hi' & Hd' & Hex' & _).
  cbn zeta in Hs. rewrite <- Hs in Hi', Hd', Hex'.
  split; [by apply Hex'|].
  split; [rewrite Hi'; apply missing_indexes_settled|].
  unfold documents. by rewrite Hd', Hd.
Qed.

Lemma newAdapter_opens_witness :
  ∃ w', newAdapter "mongodb://localhost:27017" "casbin" "policies" None None
          world0 = (Ok adapter0, w')
    ∧ isFiltered adapter0 = false.
Proof.
  destruct (newAdapter_opens "mongodb://localhost:27017" "casbin" "policies"
              None None world0 healthy_world0) as (w' & Hrun & Hf & _).
  - discriminate.
  - exists w'. split; [exact Hrun|exact Hf].
Defined.

(** ** The line format *)

Lemma string_app_assoc (a b c : string) : (a +:+ b) +:+ c = a +:+ b +:+ c.
Proof.
  induction a as [|x a IH]; [reflexivity|].
  change (String x ((a +:+ b) +:+ c) = String x (a +:+ b +:+ c)).
  by rewrite IH.
Qed.

Lemma string_length_app (a b : string) :
  String.length (a +:+ b) = String.length a + String.length b.
Proof.
  induction a as [|x a IH]; [reflexivity|].
  change (S (String.length (a +:+ b)) = S (String.length a + String.length b)).
  by rewrite IH.
Qed.

Lemma concat_joined (a b : string) (rest : list string) :
  String.concat ", " ((a +:+ ", " +:+ b) :: rest)
  = String.concat ", " (a :: b :: rest).
Proof.
  destruct rest as [|r rest]; [done|].
  cbn [String.concat]. by rewrite !string_app_assoc.
Qed.

(** X20.  The line format does not escape its separator: a rule one of
    whose fields contains ", " and the rule with that field split in two
    give the same line, so the hook receives the same text for two
    different stored rules (fields non-empty, six fields at most). *)
Theorem policy_line_separator_collision dt now ptype a b rest :
  a ≠ "" → b ≠ "" → Forall (λ s, s ≠ "") rest → length rest ≤ 4 →
  policy_line dt (inserted now ptype ((a +:+ ", " +:+ b) :: rest))
  = policy_line dt (inserted now ptype (a :: b :: rest))
  ∧ (a +:+ ", " +:+ b) :: rest ≠ a :: b :: rest
  ∧ inserted now ptype ((a +:+ ", " +:+ b) :: rest)
    ≠ inserted now ptype (a :: b :: rest).
Proof.
  intros Ha Hb Hrest Hlen.
  assert (a +:+ ", " +:+ b ≠ "") as Hab by (by destruct a).
  split.
  { rewrite !policy_line_inserted by (repeat constructor; done).
    rewrite !take_ge by (simpl; lia). by rewrite concat_joined. }
  split.
  { intros E. apply (f_equal length) in E. simpl in E. lia. }
  intros E. apply (f_equal (λ d : document, d !! vkey 0)) in E.
  rewrite !inserted_field, !rule_line_field in E. simpl in E.
  injection E as E. apply (f_equal String.length) in E.
  rewrite !string_length_app in E. simpl in E. lia.
Qed.

Lemma policy_line_separator_collision_witness :
  policy_line (date_text world0) (inserted 1000 "p" ["alice, data1"; "read"])
  = policy_line (date_text world0) (inserted 1000 "p" ["alice"; "data1"; "read"]).
Proof.
  destruct (policy_line_separator_collision (date_text world0) 1000 "p"
              "alice" "data1" ["read"]) as (H & _).
  - discriminate.
  - discriminate.
  - repeat constructor. discriminate.
  - simpl. lia.
  - exact H.
Defined.
